(** * Space-race mission analysis: the data pipeline of [space_race_project.py]

    The script is one straight-line pipeline over a pandas table:
    load a CSV file, rename and derive columns, drop the rows without a
    date, aggregate, print a summary and export the tables.  This file
    embeds that pipeline: a table is a list of rows, a nullable cell is an
    [option] ([None] is pandas' NaN / NaT), a vectorised column operation
    is a map over the rows, and the input/output stages are computations
    in a small trace-and-exception monad.

    Text is held as the bytes of its UTF-8 encoding, the one [read_csv]
    decodes and [to_csv] writes; the rates, which the script holds in
    binary floating point, are exact rationals here. *)

From Stdlib Require Import ZArith QArith List String Ascii Lia DecimalString DecimalZ.
From stdpp Require Import base option list gmap strings sorting.

Open Scope string_scope.
Open Scope list_scope.
Open Scope nat_scope.

(** ** Python string helpers used through the [.str] accessor *)

Module PyStr.

(** The code points for which [str.isspace] holds: the ASCII white
    space and separators, and the Unicode spaces. *)
Definition white_space : list N :=
  [9; 10; 11; 12; 13; 28; 29; 30; 31; 32; 133; 160; 5760;
   8192; 8193; 8194; 8195; 8196; 8197; 8198; 8199; 8200; 8201; 8202;
   8232; 8233; 8239; 8287; 12288]%N.

(** The bytes of a code point below 65536 in UTF-8. *)
Definition utf8 (cp : N) : string :=
  if (cp <? 128)%N then String (ascii_of_N cp) EmptyString
  else if (cp <? 2048)%N then
    String (ascii_of_N (192 + cp / 64))
      (String (ascii_of_N (128 + cp mod 64)) EmptyString)
  else
    String (ascii_of_N (224 + cp / 4096))
      (String (ascii_of_N (128 + (cp / 64) mod 64))
         (String (ascii_of_N (128 + cp mod 64)) EmptyString)).

(** Whether the bytes [w] are one character that [str.isspace] accepts. *)
Definition is_space (w : string) : bool :=
  bool_decide (w ∈ utf8 <$> white_space).

(** [s.split(sep)] for a one-character separator: never empty. *)
Fixpoint split (sep : ascii) (s : string) : list string :=
  match s with
  | EmptyString => [EmptyString]
  | String c s' =>
      if Ascii.eqb c sep then EmptyString :: split sep s'
      else match split sep s' with
           | h :: t => String c h :: t
           | [] => [String c EmptyString]
           end
  end.

(** [s.lstrip()]: drops white space characters, of one to three bytes,
    as long as the text starts with one. *)
Fixpoint lstrip (s : string) : string :=
  match s with
  | EmptyString => EmptyString
  | String a s1 =>
      if is_space (String a EmptyString) then lstrip s1
      else
        match s1 with
        | EmptyString => s
        | String b s2 =>
            if is_space (String a (String b EmptyString)) then lstrip s2
            else
              match s2 with
              | EmptyString => s
              | String c s3 =>
                  if is_space (String a (String b (String c EmptyString)))
                  then lstrip s3
                  else s
              end
        end
  end.

(** [s.rstrip()]: the text without the white space characters it ends
    with.  What is left of [c] followed by [s'] is [c] followed by what
    is left of [s'], unless that is one white space character. *)
Fixpoint rstrip (s : string) : string :=
  match s with
  | EmptyString => EmptyString
  | String c s' =>
      let r := String c (rstrip s') in
      if is_space r then EmptyString else r
  end.

(** [s.strip()] *)
Definition strip (s : string) : string := lstrip (rstrip s).

(** [parts[0]] and [parts[-1]]; [None] on an empty list, as [.str[i]]
    gives NaN there. *)
Definition first (parts : list string) : option string := head parts.
Definition final (parts : list string) : option string := last parts.

End PyStr.

(** ** Data model *)

(** One line of [mission_launches.csv], under the header names of the
    file.  An empty field is read as NaN. *)
Record csv_row := CsvRow {
  Organisation : option string;
  Location : option string;
  Date : option string;
  Detail : option string;
  Rocket_Status : option string;
  Price : option string;
  Mission_Status : option string
}.

(** A parsed date: the calendar fields the script reads back. *)
Record Timestamp := MkTimestamp {
  ts_year : Z;
  ts_month : Z;
  ts_day : Z;
  ts_dayofweek : Z
}.

(** A row after the renaming of STEP 2, with the two columns derived
    there.  [D] is the type of the [date] column: text before
    [pd.to_datetime], a timestamp after it. *)
Record mission (D : Type) := Mission {
  agency : option string;
  location_name : option string;
  date : D;
  rocket : option string;
  rocket_status : option string;
  price : option string;
  status : option string;
  country_full : option string;
  rocket_family : option string
}.
Arguments Mission {D}.
Arguments agency {D}.
Arguments location_name {D}.
Arguments date {D}.
Arguments rocket {D}.
Arguments rocket_status {D}.
Arguments price {D}.
Arguments status {D}.
Arguments country_full {D}.
Arguments rocket_family {D}.

(** A row of the cleaned table: the columns of STEP 2 and the derived
    columns of STEP 3, in the order the script adds them. *)
Record row := Row {
  base : mission (option Timestamp);
  year : option Z;
  month : option Z;
  month_name : option string;
  decade : option Z;
  day_of_week : option string;
  success : bool
}.

Definition DataFrame := list row.

#[global] Instance Timestamp_eq_dec : EqDecision Timestamp.
Proof. solve_decision. Defined.
#[global] Instance csv_row_eq_dec : EqDecision csv_row.
Proof. solve_decision. Defined.
#[global] Instance mission_eq_dec {D} `{EqDecision D} : EqDecision (mission D).
Proof. solve_decision. Defined.
#[global] Instance row_eq_dec : EqDecision row.
Proof. solve_decision. Defined.

(** ** STEP 2: renaming and string-derived columns *)

(** [df["location_name"].str.split(",").str[-1].str.strip()]; a NaN
    cell stays NaN at each step. *)
Definition extract_country (location : option string) : option string :=
  PyStr.strip <$> (location ≫= (λ s, PyStr.final (PyStr.split "," s))).

(** [df["rocket"].str.split("|").str[0].str.strip()] *)
Definition extract_rocket_family (detail : option string) : option string :=
  PyStr.strip <$> (detail ≫= (λ s, PyStr.first (PyStr.split "|" s))).

(** [df.rename(columns=column_mapping)] followed by the two derived
    columns. *)
Definition rename_and_split (r : csv_row) : mission (option string) :=
  let agency := Organisation r in
  let location_name := Location r in
  let date := Date r in
  let rocket := Detail r in
  let rocket_status := Rocket_Status r in
  let price := Price r in
  let status := Mission_Status r in
  Mission agency location_name date rocket rocket_status price status
          (extract_country location_name) (extract_rocket_family rocket).

(** ** STEP 3: cleaning and derived features *)

Definition with_date {D E} (m : mission D) (d : E) : mission E :=
  Mission (agency m) (location_name m) d (rocket m) (rocket_status m)
          (price m) (status m) (country_full m) (rocket_family m).

Definition success_keywords : list string := ["Success"; "Partial Failure"].

(** [Series.isin(values)] on one cell: NaN is in no list of strings. *)
Definition isin (v : option string) (values : list string) : bool :=
  match v with
  | Some s => bool_decide (s ∈ values)
  | None => false
  end.

Definition country_mapping : gmap string string :=
  <["USA" := "United States"]> (
  <["China" := "China"]> (
  <["Russia" := "Russia"]> (
  <["Kazakhstan" := "Kazakhstan"]> (
  <["French Guiana" := "France"]> (
  <["India" := "India"]> (
  <["Japan" := "Japan"]> (
  <["New Zealand" := "New Zealand"]> ∅))))))).

(** [Series.map(dict)] on one cell: NaN for NaN and for a missing key. *)
Definition series_map (d : gmap string string) (v : option string) : option string :=
  v ≫= (λ s, d !! s).

(** [Series.fillna(other)] on one cell. *)
Definition fillna {A} (v other : option A) : option A :=
  match v with
  | Some x => Some x
  | None => other
  end.

(** [df["country_full"].map(country_mapping).fillna(df["country_full"])] *)
Definition canonical_country (c : option string) : option string :=
  fillna (series_map country_mapping c) c.

Definition month_order : list string :=
  ["January"; "February"; "March"; "April"; "May"; "June"; "July";
   "August"; "September"; "October"; "November"; "December"].

Definition day_order : list string :=
  ["Monday"; "Tuesday"; "Wednesday"; "Thursday"; "Friday"; "Saturday";
   "Sunday"].

(** [.dt.month_name()] and [.dt.day_name()] on one timestamp; months
    count from 1, days of the week from Monday = 0. *)
Definition ts_month_name (d : Timestamp) : option string :=
  if bool_decide (1 ≤ ts_month d)%Z
  then month_order !! Z.to_nat (ts_month d - 1) else None.

Definition ts_day_name (d : Timestamp) : option string :=
  if bool_decide (0 ≤ ts_dayofweek d)%Z
  then day_order !! Z.to_nat (ts_dayofweek d) else None.

(** The temporal features and the success flag of one row. *)
Definition add_features (m : mission (option Timestamp)) : row :=
  let year := ts_year <$> date m in
  let month := ts_month <$> date m in
  let month_name := date m ≫= ts_month_name in
  let decade := (λ y, (y / 10) * 10)%Z <$> year in
  let day_of_week := date m ≫= ts_day_name in
  let success := isin (status m) success_keywords in
  Row m year month month_name decade day_of_week success.

Definition map_country (r : row) : row :=
  let m := base r in
  Row (Mission (agency m) (location_name m) (date m) (rocket m)
               (rocket_status m) (price m) (status m)
               (canonical_country (country_full m)) (rocket_family m))
      (year r) (month r) (month_name r) (decade r) (day_of_week r)
      (success r).

(** [df.dropna(subset=["date"])] *)
Definition dropna_date (df : list (mission (option Timestamp)))
  : list (mission (option Timestamp)) :=
  filter (λ m, is_Some (date m)) df.

Section Normalizer.

(** [pd.to_datetime(column, errors="coerce")]: a library function of
    the whole column (the format may be inferred from its first
    entries); an entry that does not parse becomes NaT.  It returns
    one result per entry. *)
Variable to_datetime : list (option string) → list (option Timestamp).

(** [df["date"] = pd.to_datetime(df["date"], errors="coerce")] *)
Definition convert_dates (df : list (mission (option string)))
  : list (mission (option Timestamp)) :=
  zip_with with_date df (to_datetime (date <$> df)).

(** The table as it stands after STEP 3. *)
Definition process (raw : list csv_row) : DataFrame :=
  let df := rename_and_split <$> raw in
  let df := convert_dates df in
  let df := dropna_date df in
  let df := add_features <$> df in
  map_country <$> df.

End Normalizer.

(** ** STEP 4: counts by country and by organisation *)

(** The order of [value_counts]: larger counts come first. *)
Definition count_ge (a b : string * nat) : Prop := (b.2 ≤ a.2)%nat.

#[global] Instance count_ge_dec : RelDecision count_ge.
Proof. intros a b. unfold count_ge. apply _. Defined.

(** [Series.value_counts()]: one entry per distinct non-null value with
    the number of rows holding it, largest count first (pandas leaves
    the order among equal counts open).  NaN cells are not counted
    ([dropna=True] is the default). *)
Definition value_counts (col : list (option string)) : list (string * nat) :=
  let vals := omap id col in
  let counts := (λ v, (v, length (filter (v =.) vals))) <$> remove_dups vals in
  merge_sort count_ge counts.

(** [.head(n)] *)
Definition head_n {A} (n : nat) (l : list A) : list A := take n l.

Definition country_missions (df : DataFrame) : list (string * nat) :=
  head_n 15 (value_counts ((country_full ∘ base) <$> df)).

Definition org_missions (df : DataFrame) : list (string * nat) :=
  head_n 15 (value_counts ((agency ∘ base) <$> df)).

(** [len(df)] *)
Definition total_missions (df : DataFrame) : nat := length df.

(** The sum of the counts of a table of counts. *)
Definition counts_total (counts : list (string * nat)) : nat :=
  sum_list (snd <$> counts).

(** ** STEP 7: success rates *)

(** [df["success"].sum()] *)
Definition successful_missions (df : DataFrame) : nat :=
  length (filter (λ r, success r = true) df).

(** One line of [df.groupby(key)["success"].agg(["sum", "count"])]. *)
Record group_stat := GroupStat {
  g_key : Z;
  g_sum : nat;
  g_count : nat
}.

(** [df.groupby(key)["success"].agg(["sum", "count"])] for an integer
    key column: the groups are the distinct non-null keys in ascending
    order. *)
Definition groupby_success (key : row → option Z) (df : DataFrame) : list group_stat :=
  let keys := merge_sort Z.le (remove_dups (omap key df)) in
  (λ k, let grp := filter (λ r, key r = Some k) df in
        GroupStat k (successful_missions grp) (length grp)) <$> keys.

Definition Q_of_nat (n : nat) : Q := inject_Z (Z.of_nat n).

(** [(sum / count) * 100] *)
Definition rate (g : group_stat) : Q :=
  ((Q_of_nat (g_sum g) / Q_of_nat (g_count g)) * 100)%Q.

Definition success_by_decade (df : DataFrame) : list group_stat :=
  groupby_success decade df.

Definition success_by_year (df : DataFrame) : list group_stat :=
  groupby_success year df.

(** The bounds [start, end) of the window of position [i] in a series of
    [n] values, as pandas' fixed-window indexer computes them: the
    window ends [offset] places after [i], with [offset = (window - 1) // 2]
    when centred, and both bounds are clipped to [0, n] (the subtraction
    on [nat] clips [start] at 0). *)
Definition window_bounds (window : nat) (center : bool) (n i : nat) : nat * nat :=
  let offset := if center then (window - 1) `div` 2 else 0 in
  let stop := i + 1 + offset in
  let start := stop - window in
  (start `min` n, stop `min` n).

Definition Qsum (l : list Q) : Q := foldr Qplus 0%Q l.

(** The mean of the observations of one window: NaN unless at least
    [min_periods] (and at least one) of them are not NaN. *)
Definition window_mean (min_periods : nat) (w : list (option Q)) : option Q :=
  let obs := omap id w in
  if bool_decide (min_periods ≤ length obs ∧ 0 < length obs)
  then Some (Qsum obs / Q_of_nat (length obs))%Q
  else None.

(** [Series.rolling(window, center).mean()]; [min_periods] defaults to
    the window size. *)
Definition rolling_mean (window : nat) (center : bool) (s : list (option Q))
  : list (option Q) :=
  let n := length s in
  (λ i, let '(start, stop) := window_bounds window center n i in
        window_mean window (take (stop - start) (drop start s))) <$> seq 0 n.

(** [success_by_year["rate"]] *)
Definition yearly_rate (df : DataFrame) : list (option Q) :=
  (Some ∘ rate) <$> success_by_year df.

Definition rolling_success (df : DataFrame) : list (option Q) :=
  rolling_mean 5 true (yearly_rate df).

(** ** STEP 10: the trend of the summary *)

(** [Series.max()] and [Series.min()] skip NaN and give NaN on an empty
    series. *)
Definition col_max (col : list (option Z)) : option Z :=
  match omap id col with
  | [] => None
  | x :: xs => Some (foldr Z.max x xs)
  end.

Definition col_min (col : list (option Z)) : option Z :=
  match omap id col with
  | [] => None
  | x :: xs => Some (foldr Z.min x xs)
  end.

(** [==] between two cells: false when either is NaN. *)
Definition cell_eqb (a b : option Z) : bool :=
  match a, b with
  | Some x, Some y => (x =? y)%Z
  | _, _ => false
  end.

Definition recent_decade (df : DataFrame) : DataFrame :=
  filter (λ r, cell_eqb (decade r) (col_max (decade <$> df)) = true) df.

Definition old_decade (df : DataFrame) : DataFrame :=
  filter (λ r, cell_eqb (decade r) (col_min (decade <$> df)) = true) df.

(** [part["success"].mean() * 100 if len(part) > 0 else 0] *)
Definition success_pct (part : DataFrame) : Q :=
  if bool_decide (0 < length part)
  then ((Q_of_nat (successful_missions part) / Q_of_nat (length part)) * 100)%Q
  else 0%Q.

Definition recent_success (df : DataFrame) : Q := success_pct (recent_decade df).
Definition old_success (df : DataFrame) : Q := success_pct (old_decade df).

(** [a > b] on two rates. *)
Definition Qgtb (a b : Q) : bool := negb (Qle_bool a b).

Definition trend_text (df : DataFrame) : string :=
  if Qgtb (recent_success df) (old_success df) then "IMPROVED" else "DECLINED".

(** ** STEP 1 and STEP 11: loading and exporting *)

(** The exceptions the [try] blocks tell apart, by class.  All of them
    derive from [Exception].  [Subclass parent name] is a class declared
    as [class name(parent)]; [OtherException] stands for every class
    that derives from neither of the two named ones. *)
Inductive exn :=
| FileNotFoundError
| ImportError
| Subclass (parent : exn) (name : string)
| OtherException (name : string).

(** What [import openpyxl] raises when the package is absent. *)
Definition ModuleNotFoundError : exn :=
  Subclass ImportError "ModuleNotFoundError".

(** The files of the [exports/] directory, in the order they are written. *)
Inductive artifact :=
| ProcessedCsv
| CountryCsv
| OrgCsv
| YearlyCsv
| RocketCsv
| SummaryTxt
| DecadeCsv
| ExcelWorkbook.

(** What the script prints, by kind. *)
Inductive message :=
| Banner
| Loaded (records : nat)
| CsvNotFound
| CsvLoadError (e : exn)
| AnalysisOutput
| ExportHeader
| CreatedDir
| Exported (a : artifact)
| ExcelSkipped
| AllSaved
| ExportError (e : exn)
| Farewell.

(** The observable effects of a run. *)
Inductive event :=
| Print (m : message)
| ReadCsv
| MakeDirs
| WriteFile (a : artifact).

#[global] Instance exn_eq_dec : EqDecision exn.
Proof. solve_decision. Defined.
#[global] Instance artifact_eq_dec : EqDecision artifact.
Proof. solve_decision. Defined.
#[global] Instance message_eq_dec : EqDecision message.
Proof. solve_decision. Defined.
#[global] Instance event_eq_dec : EqDecision event.
Proof. solve_decision. Defined.

(** [isinstance(e, cls)], the test of an [except cls] clause: the class
    of [e] is [cls] or derives from it. *)
Fixpoint isinstance (e cls : exn) : bool :=
  bool_decide (e = cls)
  || match e with
     | Subclass parent _ => isinstance parent cls
     | _ => false
     end.

(** How a block of statements ends: normally, with an exception on its
    way up, or by [exit()], whose [SystemExit] no [except Exception]
    clause catches. *)
Inductive outcome (A : Type) :=
| Done (a : A)
| Raised (e : exn)
| Exit.
Arguments Done {A}.
Arguments Raised {A}.
Arguments Exit {A}.

(** A computation: the events it performed so far and how it ended. *)
Definition prog (A : Type) : Type := list event * outcome A.

Definition emit (ev : event) : prog unit := ([ev], Done tt).
Definition raise {A} (e : exn) : prog A := ([], Raised e).
Definition exit {A} : prog A := ([], Exit).

#[global] Instance prog_ret : MRet prog := λ A a, ([], Done a).

(** Sequencing: the second block runs only when the first ends normally. *)
#[global] Instance prog_bind : MBind prog := λ A B k c,
  match c with
  | (t, Done a) => let '(t', o) := k a in (t ++ t', o)
  | (t, Raised e) => (t, Raised e)
  | (t, Exit) => (t, Exit)
  end.

(** [try: body except ...: handler]: [handler e] is the block of the
    first clause matching [e], if any. *)
Definition try_except {A} (body : prog A) (handler : exn → option (prog A)) : prog A :=
  match body with
  | (t, Raised e) =>
      match handler e with
      | Some (t', o) => (t ++ t', o)
      | None => (t, Raised e)
      end
  | other => other
  end.

(** What a run meets outside the script: the outcome of reading the
    input file, whether the analysis in between raises, and the outcome
    of each step of the export. *)
Record world := World {
  csv_file : exn + list csv_row;
  analysis_failure : option exn;
  exports_exists : bool;
  makedirs_failure : option exn;
  write_failure : artifact → option exn
}.

(** What the [except] clauses of STEP 1 print for an exception. *)
Definition load_report (e : exn) : message :=
  if isinstance e FileNotFoundError then CsvNotFound else CsvLoadError e.

(** STEP 1 *)
Definition load (w : world) : prog (list csv_row) :=
  try_except
    (emit ReadCsv;;
     match csv_file w with
     | inr df => emit (Print (Loaded (length df)));; mret df
     | inl e => raise e
     end)
    (λ e, if isinstance e FileNotFoundError
          then Some (emit (Print CsvNotFound);; exit)
          else Some (emit (Print (CsvLoadError e));; exit)).

(** STEP 2 to STEP 10: no [try] block. *)
Definition analysis (w : world) (df : list csv_row) : prog unit :=
  match analysis_failure w with
  | Some e => raise e
  | None => emit (Print AnalysisOutput)
  end.

Definition makedirs (w : world) : prog unit :=
  match makedirs_failure w with
  | Some e => raise e
  | None => emit MakeDirs
  end.

(** One export: the write, then its confirmation line. *)
Definition write (w : world) (a : artifact) : prog unit :=
  match write_failure w a with
  | Some e => raise e
  | None => emit (WriteFile a);; emit (Print (Exported a))
  end.

(** STEP 11 *)
Definition export (w : world) : prog unit :=
  try_except
    ((if exports_exists w then mret tt
      else (makedirs w;; emit (Print CreatedDir)));;
     write w ProcessedCsv;;
     write w CountryCsv;;
     write w OrgCsv;;
     write w YearlyCsv;;
     write w RocketCsv;;
     write w SummaryTxt;;
     write w DecadeCsv;;
     try_except (write w ExcelWorkbook)
       (λ e, if isinstance e ImportError
             then Some (emit (Print ExcelSkipped))
             else None);;
     emit (Print AllSaved))
    (λ e, Some (emit (Print (ExportError e)))).

(** The whole script. *)
Definition main (w : world) : prog unit :=
  emit (Print Banner);;
  df ← load w;
  analysis w df;;
  emit (Print ExportHeader);;
  export w;;
  emit (Print Farewell).

(** The files written by the steps of a plan, with their confirmations. *)
Definition written (plan : list artifact) : list event :=
  plan ≫= (λ a, [WriteFile a; Print (Exported a)]).

Definition csv_exports : list artifact :=
  [ProcessedCsv; CountryCsv; OrgCsv; YearlyCsv; RocketCsv; SummaryTxt; DecadeCsv].

(** All the exports, the workbook last. *)
Definition export_plan : list artifact := csv_exports ++ [ExcelWorkbook].

(** The events of creating [exports/] when it is absent. *)
Definition dir_events (w : world) : list event :=
  if exports_exists w then [] else [MakeDirs; Print CreatedDir].

Definition is_output (ev : event) : bool :=
  match ev with
  | MakeDirs | WriteFile _ => true
  | _ => false
  end.

Definition is_error_report (ev : event) : bool :=
  match ev with
  | Print CsvNotFound | Print (CsvLoadError _) | Print (ExportError _) => true
  | _ => false
  end.

(** ** The CSV file of the processed table

    [df.to_csv(path, index=False)] hands the rows to Python's
    [csv.writer] with pandas' defaults: fields separated by [,], lines
    ended by a line feed, a field quoted with double quotes when it
    holds a separator, a quote or a character of the line terminator,
    quotes doubled inside.  Reading the file back is [pd.read_csv], whose
    tokenizer and column inference are embedded below for the same
    defaults. *)

Definition COMMA : ascii := ","%char.
Definition DQUOTE : ascii := "034"%char.
Definition LF : ascii := "010"%char.
Definition CR : ascii := "013"%char.
Definition SPACE : ascii := " "%char.
Definition TAB : ascii := "009"%char.

Section CsvWriter.

(** Whether the writer also quotes a field for a carriage return.  With
    the line-feed terminator the writer of CPython up to 3.12 does not;
    later versions quote every field that holds a line break. *)
Variable quote_cr : bool.

Definition special (c : ascii) : bool :=
  Ascii.eqb c COMMA || Ascii.eqb c DQUOTE || Ascii.eqb c LF
  || (quote_cr && Ascii.eqb c CR).

Definition needs_quote (f : list ascii) : bool := existsb special f.

(** Quotes are doubled inside a quoted field. *)
Definition escape (f : list ascii) : list ascii :=
  f ≫= (λ c, if Ascii.eqb c DQUOTE then [DQUOTE; DQUOTE] else [c]).

Definition render_field (f : string) : list ascii :=
  let cs := list_ascii_of_string f in
  if needs_quote cs then DQUOTE :: escape cs ++ [DQUOTE] else cs.

Fixpoint join_fields (fs : list (list ascii)) : list ascii :=
  match fs with
  | [] => []
  | [f] => f
  | f :: rest => f ++ COMMA :: join_fields rest
  end.

(** One line of the file.  A row that is a single empty field is
    written as a pair of quotes. *)
Definition render_row (fs : list string) : list ascii :=
  match fs with
  | [EmptyString] => [DQUOTE; DQUOTE; LF]
  | _ => join_fields (render_field <$> fs) ++ [LF]
  end.

Definition write_csv (rows : list (list string)) : string :=
  string_of_list_ascii (rows ≫= render_row).

End CsvWriter.

(** *** The tokenizer of [read_csv] *)

Inductive t_mode :=
| StartRecord
| StartField
| InField
| InQuotedField
| QuoteInQuotedField
| EatCRNL
| EatCRNLNop
| WhitespaceLine.

(** The tokenizer state: the field being read, the fields of the line
    being read and the lines read so far. *)
Record t_state := TState {
  t_at : t_mode;
  t_buf : list ascii;
  t_fields : list string;
  t_lines : list (list string)
}.

Definition set_mode (m : t_mode) (st : t_state) : t_state :=
  TState m (t_buf st) (t_fields st) (t_lines st).

Definition push_char (c : ascii) (st : t_state) : t_state :=
  TState (t_at st) (t_buf st ++ [c]) (t_fields st) (t_lines st).

Definition drop_buf (st : t_state) : t_state :=
  TState (t_at st) [] (t_fields st) (t_lines st).

Definition end_field (st : t_state) : t_state :=
  TState (t_at st) [] (t_fields st ++ [string_of_list_ascii (t_buf st)])
         (t_lines st).

Definition end_line (st : t_state) : t_state :=
  TState StartRecord (t_buf st) [] (t_lines st ++ [t_fields st]).

Definition is_blank (c : ascii) : bool := Ascii.eqb c SPACE || Ascii.eqb c TAB.

Definition start_field_step (st : t_state) (c : ascii) : t_state :=
  if Ascii.eqb c LF then end_line (end_field st)
  else if Ascii.eqb c CR then set_mode EatCRNL (end_field st)
  else if Ascii.eqb c DQUOTE then set_mode InQuotedField st
  else if Ascii.eqb c COMMA then set_mode StartField (end_field st)
  else set_mode InField (push_char c st).

(** At the start of a line empty lines are skipped
    ([skip_blank_lines=True]), and so is a line of blanks only: the
    blanks are kept aside until the line proves to hold something else. *)
Definition start_record_step (st : t_state) (c : ascii) : t_state :=
  if Ascii.eqb c LF then st
  else if Ascii.eqb c CR then set_mode EatCRNLNop st
  else if is_blank c then set_mode WhitespaceLine (push_char c st)
  else start_field_step st c.

Definition in_field_step (st : t_state) (c : ascii) : t_state :=
  if Ascii.eqb c LF then end_line (end_field st)
  else if Ascii.eqb c CR then set_mode EatCRNL (end_field st)
  else if Ascii.eqb c COMMA then set_mode StartField (end_field st)
  else set_mode InField (push_char c st).

Definition whitespace_line_step (st : t_state) (c : ascii) : t_state :=
  if Ascii.eqb c LF then set_mode StartRecord (drop_buf st)
  else if Ascii.eqb c CR then set_mode EatCRNLNop (drop_buf st)
  else if is_blank c then push_char c st
  else in_field_step st c.

Definition in_quoted_field_step (st : t_state) (c : ascii) : t_state :=
  if Ascii.eqb c DQUOTE then set_mode QuoteInQuotedField st
  else push_char c st.

Definition quote_in_quoted_field_step (st : t_state) (c : ascii) : t_state :=
  if Ascii.eqb c DQUOTE then set_mode InQuotedField (push_char c st)
  else if Ascii.eqb c COMMA then set_mode StartField (end_field st)
  else if Ascii.eqb c LF then end_line (end_field st)
  else if Ascii.eqb c CR then set_mode EatCRNL (end_field st)
  else set_mode InField (push_char c st).

(** After a carriage return that ended a field: a line feed completes
    the line end; anything else already belongs to the next line. *)
Definition eat_crnl_step (st : t_state) (c : ascii) : t_state :=
  if Ascii.eqb c LF then end_line st
  else if Ascii.eqb c COMMA then set_mode StartField (end_field (end_line st))
  else start_record_step (end_line st) c.

Definition eat_crnl_nop_step (st : t_state) (c : ascii) : t_state :=
  if Ascii.eqb c LF || Ascii.eqb c COMMA then set_mode StartRecord st
  else start_record_step (set_mode StartRecord st) c.

Definition t_step (st : t_state) (c : ascii) : t_state :=
  match t_at st with
  | StartRecord => start_record_step st c
  | StartField => start_field_step st c
  | InField => in_field_step st c
  | InQuotedField => in_quoted_field_step st c
  | QuoteInQuotedField => quote_in_quoted_field_step st c
  | EatCRNL => eat_crnl_step st c
  | EatCRNLNop => eat_crnl_nop_step st c
  | WhitespaceLine => whitespace_line_step st c
  end.

(** The end of the input: an open field and line are closed; the input
    may not end inside a quoted field. *)
Definition t_eof (st : t_state) : option (list (list string)) :=
  match t_at st with
  | StartRecord | WhitespaceLine | EatCRNLNop => Some (t_lines st)
  | InQuotedField => None
  | StartField | InField | QuoteInQuotedField =>
      Some (t_lines (end_line (end_field st)))
  | EatCRNL => Some (t_lines (end_line st))
  end.

Definition t_run (st : t_state) (cs : list ascii) : t_state :=
  foldl t_step st cs.

Definition tokenize (text : string) : option (list (list string)) :=
  t_eof (t_run (TState StartRecord [] [] []) (list_ascii_of_string text)).

(** *** The table read back *)

(** The header and the data lines; a line shorter than the header is
    filled up with NaN, a longer one is an error, and so is a file
    without a header line. *)
Record frame := Frame {
  f_columns : list string;
  f_records : list (list (option string))
}.

Definition pad_record (width : nat) (fs : list string) : list (option string) :=
  (Some <$> fs) ++ replicate (width - length fs) None.

Definition read_csv (text : string) : option frame :=
  match tokenize text with
  | Some (header :: data) =>
      if forallb (λ fs, length fs <=? length header) data
      then Some (Frame header (pad_record (length header) <$> data))
      else None
  | _ => None
  end.

(** A cell of a column after type inference.  A column is read as
    integers when every cell is a decimal integer, as booleans when
    every cell is a truth literal; any other column is left as read
    here. *)
Inductive value :=
| VInt (z : Z)
| VBool (b : bool)
| VOther (s : option string).

(** [str(n)] for an integer, and the reading of a decimal integer. *)
Definition print_int (z : Z) : string := NilZero.string_of_int (Z.to_int z).

Definition parse_int (s : string) : option Z :=
  Z.of_int <$> NilZero.int_of_string s.

Definition print_bool (b : bool) : string := if b then "True" else "False".

Definition parse_bool (s : string) : option bool :=
  if bool_decide (s ∈ ["True"; "TRUE"; "true"]) then Some true
  else if bool_decide (s ∈ ["False"; "FALSE"; "false"]) then Some false
  else None.

Definition infer_column (cells : list (option string)) : list value :=
  match mapM (λ c, c ≫= parse_int) cells with
  | Some ints => VInt <$> ints
  | None =>
      match mapM (λ c, c ≫= parse_bool) cells with
      | Some bools => VBool <$> bools
      | None => VOther <$> cells
      end
  end.

(** The position of a column name in the header. *)
Fixpoint column_index (name : string) (columns : list string) : option nat :=
  match columns with
  | [] => None
  | c :: rest =>
      if bool_decide (c = name) then Some 0
      else S <$> column_index name rest
  end.

(** [frame[name]]: the cells of a column, typed. *)
Definition column (fr : frame) (name : string) : option (list value) :=
  i ← column_index name (f_columns fr);
  infer_column <$> mapM (λ r, r !! i) (f_records fr).

(** *** Writing the processed table *)

Definition processed_columns : list string :=
  ["agency"; "location_name"; "date"; "rocket"; "rocket_status"; "price";
   "status"; "country_full"; "rocket_family"; "year"; "month"; "month_name";
   "decade"; "day_of_week"; "success"].

(** NaN is written as the empty field. *)
Definition text_cell (v : option string) : string := default EmptyString v.

Definition int_cell (v : option Z) : string := text_cell (print_int <$> v).

Section ToCsv.

Variable quote_cr : bool.

(** How a timestamp is written; the format is the library's. *)
Variable format_timestamp : Timestamp → string.

Definition row_fields (r : row) : list string :=
  let m := base r in
  [ text_cell (agency m); text_cell (location_name m);
    text_cell (format_timestamp <$> date m); text_cell (rocket m);
    text_cell (rocket_status m); text_cell (price m); text_cell (status m);
    text_cell (country_full m); text_cell (rocket_family m);
    int_cell (year r); int_cell (month r); text_cell (month_name r);
    int_cell (decade r); text_cell (day_of_week r);
    print_bool (success r) ].

(** [df.to_csv("exports/processed_mission_data.csv", index=False)] *)
Definition to_csv (df : DataFrame) : string :=
  write_csv quote_cr (processed_columns :: (row_fields <$> df)).

End ToCsv.

(** No carriage return in any field of any row. *)
Definition cr_free (rows : list (list string)) : Prop :=
  Forall (Forall (λ f, CR ∉ list_ascii_of_string f)) rows.

(** *** Reading back what was written *)

(** A character that neither ends nor quotes a field. *)
Definition plain_char (c : ascii) : Prop :=
  Ascii.eqb c COMMA = false ∧ Ascii.eqb c DQUOTE = false
  ∧ Ascii.eqb c LF = false ∧ Ascii.eqb c CR = false.

(** The modes in which a separator closes the field being read, and
    those in which a line feed closes the line. *)
Definition closing (m : t_mode) : Prop :=
  m = StartRecord ∨ m = StartField ∨ m = InField ∨ m = QuoteInQuotedField
  ∨ m = WhitespaceLine.

Definition ending (m : t_mode) : Prop :=
  m = StartField ∨ m = InField ∨ m = QuoteInQuotedField.

(** A field the reader takes back as written: it holds no carriage
    return, unless the writer quotes for one. *)
Definition readable (quote_cr : bool) (f : string) : Prop :=
  quote_cr = true ∨ CR ∉ list_ascii_of_string f.

(** A row the reader takes back as written: two fields or more, so that
    its line is never blank, each of them readable. *)
Definition readable_row (quote_cr : bool) (row : list string) : Prop :=
  2 ≤ length row ∧ Forall (readable quote_cr) row.

(** ** Reading a cleaned row back against the input *)

(** The columns that STEP 2 only renames, on both sides of the renaming. *)
Definition csv_columns (r : csv_row) :=
  (Organisation r, Location r, Detail r, Rocket_Status r, Price r,
   Mission_Status r).

Definition kept_columns {D} (m : mission D) :=
  (agency m, location_name m, rocket m, rocket_status m, price m, status m).

(** A column without NaN. *)
Definition nonnull {A} (col : list (option A)) : Prop := Forall is_Some col.

(** ** A sample date parser

    An instance of [pd.to_datetime] for the examples: it reads ISO dates
    [YYYY-MM-DD], entry by entry, and gives NaT for everything else. *)
Module Sample.

Definition days_from_civil (y m d : Z) : Z :=
  let y' := (if m <=? 2 then y - 1 else y)%Z in
  let era := (y' / 400)%Z in
  let yoe := (y' - era * 400)%Z in
  let doy := ((153 * (if m <=? 2 then m + 9 else m - 3) + 2) / 5 + d - 1)%Z in
  let doe := (yoe * 365 + yoe / 4 - yoe / 100 + doy)%Z in
  (era * 146097 + doe - 719468)%Z.

Definition number (s : string) : option Z :=
  Z.of_uint <$> DecimalString.NilZero.uint_of_string s.

Definition parse_iso (s : string) : option Timestamp :=
  match PyStr.split "-" s with
  | [ys; ms; ds] =>
      y ← number ys; m ← number ms; d ← number ds;
      if bool_decide (1 ≤ m ≤ 12 ∧ 1 ≤ d ≤ 31)%Z
      then Some (MkTimestamp y m d ((days_from_civil y m d + 3) `mod` 7))
      else None
  | _ => None
  end.

Definition to_datetime (col : list (option string)) : list (option Timestamp) :=
  (λ v, v ≫= parse_iso) <$> col.

Definition launch (org loc day detail st : string) : csv_row :=
  CsvRow (Some org) (Some loc) (Some day) (Some detail) (Some "StatusActive")
         None (Some st).

(** Four launches; the third has no usable date. *)
Definition launches : list csv_row :=
  [ launch "RVSN USSR" "Site 1/5, Baikonur Cosmodrome, Kazakhstan"
           "1957-10-04" "Sputnik 8K71PS | Sputnik-1" "Success";
    launch "US Navy" "LC-18A, Cape Canaveral AFS, Florida, USA"
           "1957-12-06" "Vanguard | Vanguard TV3" "Failure";
    launch "NASA" "LC-39A, Kennedy Space Center, Florida, USA"
           "sometime in 1969" "Saturn V | Apollo 11" "Success";
    launch "SpaceX" "LC-39A, Kennedy Space Center, Florida, USA"
           "2020-08-07" "Falcon 9 Block 5 | Starlink V1 L9" "Success" ].

(** Two launches; the [Location] field of the second is empty in the
    file. *)
Definition unlocated : list csv_row :=
  [ launch "RVSN USSR" "Site 1/5, Baikonur Cosmodrome, Kazakhstan"
           "1957-10-04" "Sputnik 8K71PS | Sputnik-1" "Success";
    CsvRow (Some "RVSN USSR") None (Some "1957-11-03")
           (Some "Sputnik 8K71PS | Sputnik-2") (Some "StatusRetired") None
           (Some "Success") ].

(** The first row of [launches] once cleaned. *)
Definition sputnik : row :=
  Row (Mission (Some "RVSN USSR")
               (Some "Site 1/5, Baikonur Cosmodrome, Kazakhstan")
               (Some (MkTimestamp 1957 10 4 4))
               (Some "Sputnik 8K71PS | Sputnik-1") (Some "StatusActive") None
               (Some "Success") (Some "Kazakhstan") (Some "Sputnik 8K71PS"))
      (Some 1957%Z) (Some 10%Z) (Some "October") (Some 1950%Z) (Some "Friday")
      true.

(** Six launches, one a year, from one site. *)
Definition yearly (day st : string) : csv_row :=
  launch "RVSN USSR" "Site 1/5, Baikonur Cosmodrome, Kazakhstan" day
         "Vostok | Test" st.

Definition six_years : list csv_row :=
  [ yearly "1957-10-04" "Success"; yearly "1958-02-03" "Failure";
    yearly "1959-01-02" "Partial Failure"; yearly "1960-05-15" "Failure";
    yearly "1961-04-12" "Success"; yearly "1962-03-16" "Prelaunch Failure" ].

(** A failure and a success in the 1950s, a failure and a success in the
    2020s. *)
Definition level : list csv_row :=
  [ yearly "1957-10-04" "Success"; yearly "1958-02-03" "Failure";
    yearly "2020-05-15" "Failure"; yearly "2021-04-12" "Success" ].

(** Dates written as [YYYY-M-D]. *)
Definition format_timestamp (t : Timestamp) : string :=
  print_int (ts_year t) +:+ "-" +:+ print_int (ts_month t) +:+ "-"
  +:+ print_int (ts_day t).

(** A launch whose rocket name holds a carriage return. *)
Definition cr_launch : list csv_row :=
  [ launch "NASA" "LC-39A, Kennedy Space Center, Florida, USA" "1969-07-16"
           ("Saturn" +:+ String CR "V | Apollo 11") "Success" ].

(** Runs of the script: the input file is missing; the file loads but
    the analysis raises; [openpyxl] is not installed; the disk fills up
    while the yearly table is written. *)
Definition no_file : world :=
  World (inl FileNotFoundError) None false None (λ _, None).

Definition bad_analysis : world :=
  World (inr []) (Some (OtherException "ValueError")) false None (λ _, None).

Definition no_openpyxl : world :=
  World (inr launches) None false None
        (λ a, match a with ExcelWorkbook => Some ImportError | _ => None end).

Definition no_module : world :=
  World (inr launches) None true None
        (λ a, match a with
              | ExcelWorkbook => Some ModuleNotFoundError
              | _ => None
              end).

Definition disk_full : world :=
  World (inr launches) None true None
        (λ a, match a with
              | YearlyCsv => Some (OtherException "OSError")
              | _ => None
              end).

End Sample.

(** ** The rest of the analysis *)

(** *** Python and pandas helpers *)

(** [needle in s] on strings. *)
Fixpoint str_contains (needle s : string) : bool :=
  String.prefix needle s
  || match s with
     | EmptyString => false
     | String _ s' => str_contains needle s'
     end.

(** [str(x)] of a text cell; NaN prints as [nan]. *)
Definition py_str (v : option string) : string := default "nan" v.

(** [.iloc[-n:]], which is also [.tail(n)]: the last [n] entries, all of
    them when there are fewer. *)
Definition iloc_last {A} (n : nat) (l : list A) : list A :=
  drop (length l - n) l.

(** [.iloc[-a:-b]]: both bounds count from the end and stop at the
    start of the series. *)
Definition iloc_between {A} (a b : nat) (l : list A) : list A :=
  let start := length l - a in
  let stop := length l - b in
  take (stop - start) (drop start l).

(** [Series.mean()] of a column of counts: NaN when it is empty. *)
Definition mean_count (l : list nat) : option Q :=
  match l with
  | [] => None
  | _ => Some (Q_of_nat (sum_list l) / Q_of_nat (length l))%Q
  end.

(** [a > b] on two cells: false when either is NaN. *)
Definition cell_gtb (a b : option Q) : bool :=
  match a, b with
  | Some x, Some y => Qgtb x y
  | _, _ => false
  end.

(** The first entry holding the largest value, with its value. *)
Fixpoint argmax_from {A} (best : A * nat) (l : list (A * nat)) : A * nat :=
  match l with
  | [] => best
  | x :: l' => if best.2 <? x.2 then argmax_from x l' else argmax_from best l'
  end.

(** [Series.idxmax()]: the label of the first largest value; it raises
    on an empty series. *)
Definition idxmax {A} (s : list (A * nat)) : option A :=
  match s with
  | [] => None
  | x :: l => Some (argmax_from x l).1
  end.

(** [Series.reindex(labels)]: one entry per label, in the order of the
    labels, NaN for a label the series does not hold. *)
Definition reindex (s : list (string * nat)) (labels : list string)
  : list (string * option nat) :=
  (λ l, (l, (list_to_map s : gmap string nat) !! l)) <$> labels.

(** *** STEP 5: launches over time *)

(** [df.groupby("year").size().reset_index(name="missions")] *)
Definition missions_per_year (df : DataFrame) : list (Z * nat) :=
  (λ k, (k, length (filter (λ r, year r = Some k) df)))
    <$> merge_sort Z.le (remove_dups (omap year df)).

Definition major_powers : list string := ["United States"; "Russia"; "China"].

(** [df[df["country_full"].isin(major_powers)]] *)
Definition df_powers (df : DataFrame) : DataFrame :=
  filter (λ r, isin (country_full (base r)) major_powers = true) df.

(** *** STEP 6: seasonal patterns *)

Definition month_counts (df : DataFrame) : list (string * option nat) :=
  reindex (value_counts (month_name <$> df)) month_order.

Definition day_counts (df : DataFrame) : list (string * option nat) :=
  reindex (value_counts (day_of_week <$> df)) day_order.

(** *** STEP 7: overall success *)

(** [(successful_missions / total_missions) * 100], for a table with at
    least one row. *)
Definition success_rate (df : DataFrame) : Q :=
  ((Q_of_nat (successful_missions df) / Q_of_nat (total_missions df)) * 100)%Q.

(** [total_missions - successful_missions], printed as the number of
    failed missions. *)
Definition failed_missions (df : DataFrame) : nat :=
  total_missions df - successful_missions df.

(** *** STEP 8 and STEP 9: rockets and leading countries *)

Definition top_rockets (df : DataFrame) : list (string * nat) :=
  head_n 15 (value_counts ((rocket ∘ base) <$> df)).

Definition top_families (df : DataFrame) : list (string * nat) :=
  head_n 12 (value_counts ((rocket_family ∘ base) <$> df)).

(** [df["country_full"].value_counts().head(5).index] *)
Definition top_5_countries (df : DataFrame) : list string :=
  fst <$> head_n 5 (value_counts ((country_full ∘ base) <$> df)).

Definition df_top5 (df : DataFrame) : DataFrame :=
  filter (λ r, isin (country_full (base r)) (top_5_countries df) = true) df.

(** *** STEP 10: the figures of the summary *)

(** [top_rockets.index[0] if len(top_rockets) > 0 else "N/A"] *)
Definition top_rocket_name (df : DataFrame) : string :=
  match top_rockets df with
  | (name, _) :: _ => name
  | [] => "N/A"
  end.

(** [top_rockets.iloc[0] if len(top_rockets) > 0 else 0] *)
Definition top_rocket_count (df : DataFrame) : nat :=
  match top_rockets df with
  | (_, launches) :: _ => launches
  | [] => 0
  end.

(** The year of the first largest count; [idxmax] raises on a table
    without years. *)
Definition peak_year (df : DataFrame) : option Z :=
  idxmax (missions_per_year df).

Definition recent_trend (df : DataFrame) : string :=
  let missions := snd <$> missions_per_year df in
  if cell_gtb (mean_count (iloc_last 5 missions))
              (mean_count (iloc_between 10 5 missions))
  then "increasing" else "stable".

Definition spaceflight_status (df : DataFrame) : string :=
  if existsb (λ x, str_contains "SpaceX" (py_str x))
             (iloc_last 200 ((agency ∘ base) <$> df))
  then "emerging" else "growing".

(** *** STEP 11: the statistics tables *)

(** [part["success"].mean() * 100]: NaN for an empty selection. *)
Definition success_mean_pct (part : DataFrame) : option Q :=
  match part with
  | [] => None
  | _ => Some ((Q_of_nat (successful_missions part) / Q_of_nat (length part))
               * 100)%Q
  end.

(** One line of a statistics table: the label, its count and the
    success rate of the rows with that label. *)
Record stat_line (K : Type) := StatLine {
  s_label : K;
  s_total : nat;
  s_rate : option Q
}.
Arguments StatLine {K}.
Arguments s_label {K}.
Arguments s_total {K}.
Arguments s_rate {K}.

(** The three columns built from a table of counts: for each label,
    [df[df[key] == label]["success"].mean() * 100]. *)
Definition stats_table {K} `{EqDecision K} (key : row → option K)
    (counts : list (K * nat)) (df : DataFrame) : list (stat_line K) :=
  (λ p, StatLine p.1 p.2
          (success_mean_pct (filter (λ r, key r = Some p.1) df))) <$> counts.

Definition country_stats (df : DataFrame) : list (stat_line string) :=
  stats_table (country_full ∘ base) (country_missions df) df.

Definition org_stats (df : DataFrame) : list (stat_line string) :=
  stats_table (agency ∘ base) (org_missions df) df.

Definition yearly_stats (df : DataFrame) : list (stat_line Z) :=
  stats_table year (missions_per_year df) df.

(** [top_rockets.index[:20]] and [top_rockets.values[:20]] *)
Definition rocket_stats (df : DataFrame) : list (stat_line string) :=
  stats_table (rocket ∘ base) (take 20 (top_rockets df)) df.

(** A line that describes the rows of its label: their number, at least
    one, and their success rate, a number between 0 and 100. *)
Definition line_of_group {K} `{EqDecision K} (key : row → option K)
    (df : DataFrame) (line : stat_line K) : Prop :=
  let grp := filter (λ r, key r = Some (s_label line)) df in
  s_total line = length grp
  ∧ 1 ≤ s_total line
  ∧ ∃ q, s_rate line = Some q
         ∧ (0 <= q <= 100)%Q
         ∧ (q * Q_of_nat (length grp)
            == 100 * Q_of_nat (successful_missions grp))%Q.

(** The files written in a trace, in order. *)
Definition files_written (t : list event) : list artifact :=
  omap (λ ev, match ev with WriteFile a => Some a | _ => None end) t.

(** *** Text around a separator *)

Definition BAR : ascii := "|"%char.

(** The characters of a string. *)
Definition chars (s : string) : list ascii := list_ascii_of_string s.

(** No white space character at either end: the text is neither a
    white space character followed by some text nor some text followed
    by one. *)
Definition stripped (s : string) : Prop :=
  ∀ w t, PyStr.is_space w = true → s ≠ w +:+ t ∧ s ≠ t +:+ w.

(** U+00A0, the no-break space, as its two bytes. *)
Definition NBSP : string := PyStr.utf8 160.

(** More sample data. *)
Module Cases.

(** A launch whose location ends with a no-break space and whose rocket
    detail starts with one. *)
Definition padded : list csv_row :=
  [ Sample.launch "SpaceX"
      ("LC-39A, Kennedy Space Center, Florida, USA" +:+ NBSP) "2020-05-30"
      (NBSP +:+ "Falcon 9 Block 5 | Crew Dragon") "Success" ].

(** The row of [padded] once cleaned. *)
Definition crew_dragon : row :=
  Eval vm_compute in
    default Sample.sputnik (process Sample.to_datetime padded !! 0).

(** The second row of [Sample.launches] once cleaned. *)
Definition vanguard : row :=
  Eval vm_compute in
    default Sample.sputnik (process Sample.to_datetime Sample.launches !! 1).

(** The first line of the country table of [Sample.launches]. *)
Definition leading_country : stat_line string :=
  Eval vm_compute in
    default (StatLine EmptyString 0 None)
            (country_stats (process Sample.to_datetime Sample.launches) !! 0).

(** The script runs to the export, where every write fails. *)
Definition read_only_disk : world :=
  World (inr Sample.launches) None true None
        (λ _, Some (OtherException "PermissionError")).

End Cases.

(** * Properties *)

(** Unfolds [filter] on the head of a list, in the goal. *)
Ltac filter_head :=
  repeat match goal with
         | |- context [filter ?P (?x :: ?l)] => rewrite (filter_cons P x l)
         end;
  simpl.

(** ** The normalizer *)

Lemma dropna_zip_with (l : list (mission (option string)))
    (k : list (option Timestamp)) :
  dropna_date (zip_with with_date l k)
  = (λ p, with_date p.1 p.2) <$> filter (λ p, is_Some p.2) (zip l k).
Proof.
  unfold dropna_date. revert k.
  induction l as [|m l IH]; intros [|d k]; simpl; try reflexivity.
  filter_head.
  destruct (decide (is_Some d)); simpl; rewrite IH; reflexivity.
Qed.

Lemma length_filter_zip_snd {A B} (P : B → Prop) `{∀ b, Decision (P b)}
    (l : list A) (k : list B) :
  length k ≤ length l →
  length (filter (λ p, P p.2) (zip l k)) = length (filter P k).
Proof.
  revert l. induction k as [|b k IH]; intros [|a l] Hlen; simpl in *;
    try reflexivity; try lia.
  filter_head.
  destruct (decide (P b)); simpl; rewrite IH by lia; reflexivity.
Qed.

Section NormalizerFacts.

Variable to_datetime : list (option string) → list (option Timestamp).
Hypothesis to_datetime_length :
  ∀ col, length (to_datetime col) = length col.

(** The rows of the cleaned table are the input rows paired with a
    parsed date, in input order, each passed through the row-wise
    derivations. *)
Lemma process_unfold (raw : list csv_row) :
  process to_datetime raw
  = (λ p, map_country (add_features (with_date (rename_and_split p.1) p.2)))
      <$> filter (λ p, is_Some p.2) (zip raw (to_datetime (Date <$> raw))).
Proof.
  unfold process, convert_dates. rewrite dropna_zip_with.
  replace (date <$> (rename_and_split <$> raw)) with (Date <$> raw)
    by (rewrite <- list_fmap_compose; reflexivity).
  generalize (to_datetime (Date <$> raw)) as k.
  intros k. rewrite <- !list_fmap_compose. revert k.
  induction raw as [|c raw IH]; intros [|d k]; simpl; try reflexivity.
  filter_head.
  destruct (decide (is_Some d)); simpl; rewrite IH; reflexivity.
Qed.

Lemma elem_of_process (raw : list csv_row) (r : row) :
  r ∈ process to_datetime raw →
  ∃ c d, c ∈ raw
         ∧ r = map_country (add_features (with_date (rename_and_split c) (Some d))).
Proof.
  rewrite process_unfold. intros Hr.
  apply list_elem_of_fmap in Hr as [[c d] [-> Hp]].
  apply list_elem_of_filter in Hp as [[t Ht] Hz]. simpl in *. subst d.
  exists c, t. split; [|reflexivity].
  apply (elem_of_zip_l _ _ _ _ Hz).
Qed.

(** C1. Every row of the cleaned table has a non-null date, the date the
    parser gave for it; the cleaned table is exactly the input rows whose
    date parsed, in input order and with their other input columns
    untouched, so a row is dropped if and only if its date failed to
    parse and no other step removes a row. *)
Theorem cleaning_keeps_exactly_dated_rows (raw : list csv_row) :
  let parsed := to_datetime (Date <$> raw) in
  let df := process to_datetime raw in
  Forall (λ r, is_Some (date (base r))) df
  ∧ (λ r, (kept_columns (base r), date (base r))) <$> df
    = filter (λ p, is_Some p.2) (zip (csv_columns <$> raw) parsed)
  ∧ length df = length (filter is_Some parsed).
Proof.
  intros parsed df. subst df. rewrite process_unfold. fold parsed.
  split; [|split].
  - apply Forall_fmap, Forall_forall. intros [c d] Hp.
    apply list_elem_of_filter in Hp as [Hd _]. exact Hd.
  - rewrite <- list_fmap_compose.
    generalize parsed as k. clear.
    induction raw as [|c raw IH]; intros [|d k]; simpl; try reflexivity.
    filter_head.
    destruct (decide (is_Some d)); simpl; rewrite IH; reflexivity.
  - rewrite length_fmap. apply length_filter_zip_snd.
    unfold parsed. rewrite to_datetime_length, length_fmap. lia.
Qed.

(** C2. In every row of the cleaned table the [success] flag is true
    exactly when the status, which is the raw [Mission_Status] string of
    an input row, is "Success" or "Partial Failure". *)
Theorem success_iff_status (raw : list csv_row) (r : row) :
  r ∈ process to_datetime raw →
  (∃ c, c ∈ raw ∧ Mission_Status c = status (base r))
  ∧ (success r = true
     ↔ status (base r) = Some "Success"
       ∨ status (base r) = Some "Partial Failure").
Proof.
  intros Hr. apply elem_of_process in Hr as (c & d & Hc & ->).
  split; [exists c; split; [exact Hc | reflexivity]|].
  simpl. unfold isin, success_keywords.
  destruct (Mission_Status c) as [s|]; simpl.
  - rewrite bool_decide_eq_true. rewrite !elem_of_cons, elem_of_nil.
    split.
    + intros [->|[->|[]]]; [left | right]; reflexivity.
    + intros [[= ->]|[= ->]]; auto.
  - split; [discriminate | intros [|]; discriminate].
Qed.

(** C3. In every row of the cleaned table the year is present and the
    decade is [(year // 10) * 10]: the largest multiple of ten that is
    not above the year. *)
Theorem decade_truncates_year (raw : list csv_row) (r : row) :
  r ∈ process to_datetime raw →
  ∃ y dec, year r = Some y
           ∧ decade r = Some dec
           ∧ dec = ((y / 10) * 10)%Z
           ∧ (dec `mod` 10 = 0)%Z
           ∧ (dec ≤ y < dec + 10)%Z.
Proof.
  intros Hr. apply elem_of_process in Hr as (c & d & Hc & ->).
  exists (ts_year d), ((ts_year d / 10) * 10)%Z. simpl.
  repeat split; try reflexivity.
  - apply Z.mod_mul. lia.
  - pose proof (Z.mul_div_le (ts_year d) 10). lia.
  - pose proof (Z.mod_pos_bound (ts_year d) 10).
    pose proof (Z.div_mod (ts_year d) 10). lia.
Qed.

End NormalizerFacts.

Lemma cleaning_keeps_exactly_dated_rows_witness :
  let parsed := Sample.to_datetime (Date <$> Sample.launches) in
  let df := process Sample.to_datetime Sample.launches in
  Forall (λ r, is_Some (date (base r))) df
  ∧ (λ r, (kept_columns (base r), date (base r))) <$> df
    = filter (λ p, is_Some p.2) (zip (csv_columns <$> Sample.launches) parsed)
  ∧ length df = length (filter is_Some parsed).
Proof.
  apply (cleaning_keeps_exactly_dated_rows Sample.to_datetime).
  intros col. unfold Sample.to_datetime. apply length_fmap.
Defined.

Example sample_cleaning :
  length (process Sample.to_datetime Sample.launches) = 3
  ∧ year <$> process Sample.to_datetime Sample.launches
    = [Some 1957; Some 1957; Some 2020]%Z
  ∧ (country_full ∘ base) <$> process Sample.to_datetime Sample.launches
    = [Some "Kazakhstan"; Some "United States"; Some "United States"]
  ∧ day_of_week <$> process Sample.to_datetime Sample.launches
    = [Some "Friday"; Some "Friday"; Some "Friday"].
Proof. vm_compute. repeat split. Qed.

Lemma sputnik_cleaned : Sample.sputnik ∈ process Sample.to_datetime Sample.launches.
Proof. vm_compute. apply list_elem_of_here. Qed.

Lemma success_iff_status_witness :
  (∃ c, c ∈ Sample.launches ∧ Mission_Status c = status (base Sample.sputnik))
  ∧ (success Sample.sputnik = true
     ↔ status (base Sample.sputnik) = Some "Success"
       ∨ status (base Sample.sputnik) = Some "Partial Failure").
Proof.
  apply (success_iff_status Sample.to_datetime Sample.launches Sample.sputnik).
  vm_compute. apply list_elem_of_here.
Defined.

Lemma decade_truncates_year_witness :
  ∃ y dec, year Sample.sputnik = Some y
           ∧ decade Sample.sputnik = Some dec
           ∧ dec = ((y / 10) * 10)%Z
           ∧ (dec `mod` 10 = 0)%Z
           ∧ (dec ≤ y < dec + 10)%Z.
Proof.
  apply (decade_truncates_year Sample.to_datetime Sample.launches Sample.sputnik).
  vm_compute. apply list_elem_of_here.
Defined.

(** The examples of the specification. *)
Example barking_sands :
  extract_country (Some "Pacific Missile Range Facility, Barking Sands, USA")
  = Some "USA"
  ∧ canonical_country (Some "USA") = Some "United States".
Proof. split; vm_compute; reflexivity. Qed.

Example falcon_family :
  extract_rocket_family (Some "Falcon 9 Block 5 | Starlink")
  = Some "Falcon 9 Block 5".
Proof. vm_compute. reflexivity. Qed.

(** ** Country names *)

Lemma country_mapping_values (s v : string) :
  country_mapping !! s = Some v → country_mapping !! v = None ∨ country_mapping !! v = Some v.
Proof.
  unfold country_mapping. intros H.
  repeat (apply lookup_insert_Some in H as [[<- <-]|[_ H]];
          [vm_compute; auto|]).
  rewrite lookup_empty in H. discriminate.
Qed.

(** C4. Canonicalizing a country twice gives what canonicalizing it once
    gives; a token that is a key of the mapping becomes its entry, and a
    token that is not a key comes back unchanged. *)
Theorem country_canonicalization_idempotent (c : option string) (token : string) :
  canonical_country (canonical_country c) = canonical_country c
  ∧ (∀ name, country_mapping !! token = Some name →
             canonical_country (Some token) = Some name)
  ∧ (country_mapping !! token = None →
     canonical_country (Some token) = Some token).
Proof.
  assert (Hkey : ∀ t name, country_mapping !! t = Some name →
                           canonical_country (Some t) = Some name).
  { intros t name H. unfold canonical_country, series_map. simpl.
    rewrite H. reflexivity. }
  assert (Hnone : ∀ t, country_mapping !! t = None →
                       canonical_country (Some t) = Some t).
  { intros t H. unfold canonical_country, series_map. simpl.
    rewrite H. reflexivity. }
  split; [|split; [apply Hkey | apply Hnone]].
  destruct c as [s|]; [|reflexivity].
  destruct (country_mapping !! s) as [v|] eqn:Hs.
  - rewrite (Hkey _ _ Hs).
    destruct (country_mapping_values _ _ Hs) as [Hv|Hv].
    + apply Hnone, Hv.
    + apply Hkey, Hv.
  - rewrite (Hnone _ Hs). apply Hnone, Hs.
Qed.

Lemma country_canonicalization_idempotent_witness :
  canonical_country (canonical_country (Some "French Guiana"))
  = canonical_country (Some "French Guiana")
  ∧ country_mapping !! "USA" = Some "United States"
  ∧ canonical_country (Some "USA") = Some "United States"
  ∧ country_mapping !! "Iran" = None
  ∧ canonical_country (Some "Iran") = Some "Iran".
Proof.
  pose proof (country_canonicalization_idempotent (Some "French Guiana") "USA")
    as (H1 & H2 & _).
  pose proof (country_canonicalization_idempotent None "Iran") as (_ & _ & H3).
  assert (Husa : country_mapping !! "USA" = Some "United States")
    by (vm_compute; reflexivity).
  assert (Hiran : country_mapping !! "Iran" = None)
    by (vm_compute; reflexivity).
  exact (conj H1 (conj Husa (conj (H2 _ Husa) (conj Hiran (H3 Hiran))))).
Defined.

(** ** Counts by country and by organisation *)

Lemma sum_list_Permutation (l k : list nat) :
  l ≡ₚ k → sum_list l = sum_list k.
Proof. induction 1; simpl; lia. Qed.

Lemma length_filter_elem_of_cons (k : string) (ks l : list string) :
  k ∉ ks →
  length (filter (.∈ k :: ks) l)
  = length (filter (k =.) l) + length (filter (.∈ ks) l).
Proof.
  intros Hk. induction l as [|x l IH]; [reflexivity|].
  rewrite (filter_cons (k =.)), (filter_cons (.∈ ks)).
  destruct (decide (k = x)) as [<-|Hne].
  - rewrite filter_cons_True by left.
    rewrite (decide_False (P := k ∈ ks)) by exact Hk.
    simpl. rewrite IH. reflexivity.
  - destruct (decide (x ∈ ks)) as [Hx|Hx].
    + rewrite filter_cons_True by (right; exact Hx).
      simpl. rewrite IH. lia.
    + rewrite filter_cons_False; [exact IH|].
      intros [->|Hin]%elem_of_cons; [apply Hne; reflexivity | exact (Hx Hin)].
Qed.

(** Over keys without repetition, the counts add up to the number of
    entries that are one of the keys. *)
Lemma sum_counts_NoDup (ks l : list string) :
  NoDup ks →
  sum_list ((λ v, length (filter (v =.) l)) <$> ks)
  = length (filter (.∈ ks) l).
Proof.
  induction 1 as [|k ks Hk Hnd IH].
  - simpl. induction l as [|x l IHl]; [reflexivity|].
    filter_head. destruct (decide (x ∈ [])) as [Hx|_]; [|exact IHl].
    apply elem_of_nil in Hx. contradiction.
  - rewrite length_filter_elem_of_cons by exact Hk. rewrite <- IH.
    reflexivity.
Qed.

Lemma filter_elem_of_remove_dups (l : list string) :
  filter (.∈ remove_dups l) l = l.
Proof.
  assert (H : ∀ k : list string,
            (∀ x, x ∈ l → x ∈ k) → filter (.∈ k) l = l).
  { intros k. induction l as [|x l IH]; intros Hk; [reflexivity|].
    rewrite filter_cons_True by (apply Hk; left).
    f_equal. apply IH. intros y Hy. apply Hk. right. exact Hy. }
  apply H. intros x Hx. apply elem_of_remove_dups. exact Hx.
Qed.

Lemma value_counts_Permutation (col : list (option string)) :
  value_counts col
  ≡ₚ (λ v, (v, length (filter (v =.) (omap id col)))) <$> remove_dups (omap id col).
Proof. unfold value_counts. apply merge_sort_Permutation. Qed.

Lemma counts_total_value_counts (col : list (option string)) :
  counts_total (value_counts col) = length (omap id col).
Proof.
  unfold counts_total.
  rewrite (sum_list_Permutation _ _
             (fmap_Permutation snd _ _ (value_counts_Permutation col))).
  rewrite <- list_fmap_compose.
  change (snd ∘ _) with (λ v : string, length (filter (v =.) (omap id col))).
  rewrite sum_counts_NoDup by apply NoDup_remove_dups.
  rewrite filter_elem_of_remove_dups. reflexivity.
Qed.

Lemma omap_id_nonnull {A} (col : list (option A)) :
  nonnull col → length (omap id col) = length col.
Proof.
  induction 1 as [|v col [x ->] _ IH]; simpl; [reflexivity|].
  f_equal. exact IH.
Qed.

Lemma value_counts_entries (col : list (option string)) (v : string) (n : nat) :
  (v, n) ∈ value_counts col ↔
  Some v ∈ col ∧ n = length (filter (Some v =.) col).
Proof.
  assert (Hcount : ∀ l : list (option string),
            length (filter (v =.) (omap id l)) = length (filter (Some v =.) l)).
  { induction l as [|[x|] l IH]; simpl; [reflexivity| |].
    - filter_head.
      destruct (decide (v = x)); destruct (decide (Some v = Some x));
        simpl; first [exact IH | f_equal; exact IH | congruence].
    - filter_head. exact IH. }
  rewrite (value_counts_Permutation col), list_elem_of_fmap.
  split.
  - intros (v' & [= <- ->] & Hv).
    apply elem_of_remove_dups, list_elem_of_omap in Hv as (o & Ho & Hov).
    simpl in Hov. subst o. split; [exact Ho | apply Hcount].
  - intros [Hv ->]. exists v. split; [rewrite Hcount; reflexivity|].
    apply elem_of_remove_dups, list_elem_of_omap. exists (Some v).
    split; [exact Hv | reflexivity].
Qed.

(** C5, as the script computes the counts.  [value_counts] has one
    entry per distinct non-null value, holding the number of rows with
    that value, and its counts add up to the number of rows whose cell is
    not null; so for a table without missing countries (agencies) the
    counts over all distinct countries (agencies) add up to the number of
    rows.  [country_missions] and [org_missions] are the first 15
    entries, the whole of it when there are at most 15 distinct values. *)
Theorem counts_add_up_to_located_rows (df : DataFrame) :
  let countries := (country_full ∘ base) <$> df in
  let agencies := (agency ∘ base) <$> df in
  (∀ v n, (v, n) ∈ value_counts countries ↔
          Some v ∈ countries
          ∧ n = length (filter (λ r, Some v = country_full (base r)) df))
  ∧ (∀ v n, (v, n) ∈ value_counts agencies ↔
            Some v ∈ agencies
            ∧ n = length (filter (λ r, Some v = agency (base r)) df))
  ∧ counts_total (value_counts countries) = length (omap id countries)
  ∧ counts_total (value_counts agencies) = length (omap id agencies)
  ∧ (nonnull countries →
     counts_total (value_counts countries) = total_missions df)
  ∧ (nonnull agencies →
     counts_total (value_counts agencies) = total_missions df)
  ∧ (length (value_counts countries) ≤ 15 →
     country_missions df = value_counts countries)
  ∧ (length (value_counts agencies) ≤ 15 →
     org_missions df = value_counts agencies).
Proof.
  intros countries agencies.
  assert (Hlen : ∀ (f : row → option string) (v : string),
            length (filter (Some v =.) (f <$> df))
            = length (filter (λ r, Some v = f r) df)).
  { intros f v. induction df as [|r l IH]; [reflexivity|].
    rewrite fmap_cons. filter_head.
    destruct (decide (Some v = f r)); simpl; rewrite IH; reflexivity. }
  assert (Hent : ∀ (f : row → option string) v n,
            (v, n) ∈ value_counts (f <$> df) ↔
            Some v ∈ f <$> df ∧ n = length (filter (λ r, Some v = f r) df)).
  { intros f v n. rewrite value_counts_entries, Hlen. reflexivity. }
  split; [exact (Hent (country_full ∘ base))|].
  split; [exact (Hent (agency ∘ base))|].
  split; [|split; [|split; [|split; [|split]]]].
  - apply counts_total_value_counts.
  - apply counts_total_value_counts.
  - intros Hnn. rewrite counts_total_value_counts, omap_id_nonnull by exact Hnn.
    unfold countries, total_missions. apply length_fmap.
  - intros Hnn. rewrite counts_total_value_counts, omap_id_nonnull by exact Hnn.
    unfold agencies, total_missions. apply length_fmap.
  - intros Hle. unfold country_missions, head_n. apply take_ge. exact Hle.
  - intros Hle. unfold org_missions, head_n. apply take_ge. exact Hle.
Qed.

Lemma counts_add_up_to_located_rows_witness :
  let df := process Sample.to_datetime Sample.launches in
  let countries := (country_full ∘ base) <$> df in
  let agencies := (agency ∘ base) <$> df in
  nonnull countries
  ∧ nonnull agencies
  ∧ counts_total (value_counts countries) = total_missions df
  ∧ counts_total (value_counts agencies) = total_missions df
  ∧ length (value_counts countries) ≤ 15
  ∧ country_missions df = value_counts countries.
Proof.
  intros df countries agencies.
  pose proof (counts_add_up_to_located_rows df)
    as (_ & _ & _ & _ & Hc & Ha & Hhead & _).
  assert (Hnc : nonnull countries) by (vm_compute; repeat econstructor).
  assert (Hna : nonnull agencies) by (vm_compute; repeat econstructor).
  assert (Hle : length (value_counts countries) ≤ 15) by (vm_compute; lia).
  exact (conj Hnc (conj Hna (conj (Hc Hnc) (conj (Ha Hna)
           (conj Hle (Hhead Hle)))))).
Defined.

(** C5 as worded fails: a retained row whose [Location] field is empty
    has no country and enters no count, so the counts add up to less
    than the number of retained rows. *)
Lemma counts_miss_unlocated_rows :
  let df := process Sample.to_datetime Sample.unlocated in
  total_missions df = 2
  ∧ value_counts ((country_full ∘ base) <$> df) = [("Kazakhstan", 1)]
  ∧ counts_total (value_counts ((country_full ∘ base) <$> df)) = 1
  ∧ counts_total (value_counts ((country_full ∘ base) <$> df))
    ≠ total_missions df.
Proof. vm_compute. repeat split. discriminate. Qed.

(** ** The rolling success rate *)

Lemma rolling_mean_length (window : nat) (center : bool) (s : list (option Q)) :
  length (rolling_mean window center s) = length s.
Proof. unfold rolling_mean. rewrite length_fmap, length_seq. reflexivity. Qed.

Lemma rolling_mean_lookup (window : nat) (center : bool) (s : list (option Q))
    (i : nat) :
  i < length s →
  rolling_mean window center s !! i
  = Some (window_mean window
            (take ((window_bounds window center (length s) i).2
                   - (window_bounds window center (length s) i).1)
                  (drop (window_bounds window center (length s) i).1 s))).
Proof.
  intros Hi. unfold rolling_mean.
  rewrite list_lookup_fmap, lookup_seq_lt by exact Hi. simpl.
  destruct (window_bounds window center (length s) i). reflexivity.
Qed.

Lemma length_omap_le {A} (w : list (option A)) : length (omap id w) ≤ length w.
Proof.
  induction w as [|[x|] w IH]; simpl.
  - lia.
  - exact (le_n_S _ _ IH).
  - exact (Nat.le_trans _ _ _ IH (Nat.le_succ_diag_r _)).
Qed.

(** A window with fewer entries than [min_periods] has no mean. *)
Lemma window_mean_short (min_periods : nat) (w : list (option Q)) :
  length w < min_periods → window_mean min_periods w = None.
Proof.
  intros Hlen. unfold window_mean. cbv zeta.
  pose proof (length_omap_le w).
  rewrite bool_decide_eq_false_2 by lia. reflexivity.
Qed.

Lemma window_mean_five (a b c d e : Q) :
  ∃ m, window_mean 5 [Some a; Some b; Some c; Some d; Some e] = Some m
       ∧ (m == (a + b + c + d + e) / 5)%Q.
Proof.
  eexists. split.
  - unfold window_mean. cbv zeta. simpl omap. simpl length.
    rewrite bool_decide_eq_true_2 by lia. reflexivity.
  - unfold Qsum, Q_of_nat. simpl. field.
Qed.

(** The centred window of width 5 over a series without NaN. *)
Lemma rolling_five_centered (vs : list Q) (i : nat) :
  let s := Some <$> vs in
  (2 ≤ i → i + 2 < length vs →
   ∃ a b c d e m,
     vs !! (i - 2) = Some a ∧ vs !! (i - 1) = Some b ∧ vs !! i = Some c
     ∧ vs !! (i + 1) = Some d ∧ vs !! (i + 2) = Some e
     ∧ rolling_mean 5 true s !! i = Some (Some m)
     ∧ (m == (a + b + c + d + e) / 5)%Q)
  ∧ (i < length vs → i < 2 ∨ length vs ≤ i + 2 →
     rolling_mean 5 true s !! i = Some None).
Proof.
  intros s.
  assert (Hs : length s = length vs) by apply length_fmap.
  split.
  - intros Hlo Hhi.
    destruct (lookup_lt_is_Some_2 vs (i - 2)) as [a Ha]; [lia|].
    destruct (lookup_lt_is_Some_2 vs (i - 1)) as [b Hb]; [lia|].
    destruct (lookup_lt_is_Some_2 vs i) as [c Hc]; [lia|].
    destruct (lookup_lt_is_Some_2 vs (i + 1)) as [d Hd]; [lia|].
    destruct (lookup_lt_is_Some_2 vs (i + 2)) as [e He]; [lia|].
    destruct (window_mean_five a b c d e) as (m & Hm & Hmean).
    exists a, b, c, d, e, m. repeat (split; [assumption|]).
    split; [|exact Hmean].
    rewrite rolling_mean_lookup by lia. f_equal. rewrite <- Hm. f_equal.
    unfold window_bounds. rewrite Hs. simpl fst. simpl snd.
    change ((5 - 1) `div` 2) with 2.
    replace (i + 1 + 2 - 5) with (i - 2) by lia.
    replace ((i + 1 + 2) `min` length vs - (i - 2) `min` length vs) with 5
      by lia.
    replace ((i - 2) `min` length vs) with (i - 2) by lia.
    unfold s. rewrite <- fmap_drop.
    rewrite (drop_S vs a (i - 2) Ha).
    replace (S (i - 2)) with (i - 1) by lia.
    rewrite (drop_S vs b (i - 1) Hb).
    replace (S (i - 1)) with i by lia.
    rewrite (drop_S vs c i Hc).
    replace (S i) with (i + 1) by lia.
    rewrite (drop_S vs d (i + 1) Hd).
    replace (S (i + 1)) with (i + 2) by lia.
    rewrite (drop_S vs e (i + 2) He).
    reflexivity.
  - intros Hi Hedge.
    rewrite rolling_mean_lookup by lia. f_equal.
    apply window_mean_short.
    rewrite length_take, length_drop.
    unfold window_bounds. rewrite Hs. simpl fst. simpl snd.
    change ((5 - 1) `div` 2) with 2. lia.
Qed.

(** C6. The rolling trend has one entry per year of the yearly rate
    series; at a position with two years on each side it is the mean of
    the five rates of the window around it, and at the first two and the
    last two positions it is NaN. *)
Theorem rolling_success_centered_mean (df : DataFrame) (i : nat) :
  let rates := rate <$> success_by_year df in
  length (rolling_success df) = length rates
  ∧ (2 ≤ i → i + 2 < length rates →
     ∃ a b c d e m,
       rates !! (i - 2) = Some a ∧ rates !! (i - 1) = Some b
       ∧ rates !! i = Some c
       ∧ rates !! (i + 1) = Some d ∧ rates !! (i + 2) = Some e
       ∧ rolling_success df !! i = Some (Some m)
       ∧ (m == (a + b + c + d + e) / 5)%Q)
  ∧ (i < length rates → i < 2 ∨ length rates ≤ i + 2 →
     rolling_success df !! i = Some None).
Proof.
  intros rates.
  assert (Hy : yearly_rate df = Some <$> rates).
  { unfold yearly_rate, rates. apply list_fmap_compose. }
  unfold rolling_success. rewrite Hy.
  split.
  - rewrite rolling_mean_length. apply length_fmap.
  - apply rolling_five_centered.
Qed.

Example six_years_rolling :
  rolling_success (process Sample.to_datetime Sample.six_years)
  = [None; None; Some (300 # 5); Some (200 # 5); None; None]%Q.
Proof. vm_compute. reflexivity. Qed.

Lemma rolling_success_centered_mean_witness :
  let df := process Sample.to_datetime Sample.six_years in
  let rates := rate <$> success_by_year df in
  (∃ a b c d e m,
       rates !! (2 - 2) = Some a ∧ rates !! (2 - 1) = Some b
       ∧ rates !! 2 = Some c
       ∧ rates !! (2 + 1) = Some d ∧ rates !! (2 + 2) = Some e
       ∧ rolling_success df !! 2 = Some (Some m)
       ∧ (m == (a + b + c + d + e) / 5)%Q)
  ∧ rolling_success df !! 5 = Some None.
Proof.
  intros df rates.
  pose proof (rolling_success_centered_mean df 2) as (_ & Hmid & _).
  pose proof (rolling_success_centered_mean df 5) as (_ & _ & Hedge).
  split.
  - apply Hmid; [lia | vm_compute; lia].
  - apply Hedge; [vm_compute; lia | right; vm_compute; lia].
Defined.

(** ** The trend of the summary *)

Lemma Qgtb_true (a b : Q) : Qgtb a b = true ↔ (b < a)%Q.
Proof.
  unfold Qgtb. rewrite negb_true_iff, <- not_true_iff_false, Qle_bool_iff.
  split; [apply Qnot_le_lt | apply Qlt_not_le].
Qed.

(** C10. The summary says "IMPROVED" exactly when the success rate of
    the latest decade is strictly above that of the earliest decade, and
    "DECLINED" otherwise; so equal rates, and in particular a table with
    a single decade, give "DECLINED". *)
Theorem trend_improved_iff_strictly_greater (df : DataFrame) :
  (trend_text df = "IMPROVED" ↔ (old_success df < recent_success df)%Q)
  ∧ (trend_text df = "DECLINED" ↔ (recent_success df <= old_success df)%Q)
  ∧ ((recent_success df == old_success df)%Q → trend_text df = "DECLINED")
  ∧ (col_max (decade <$> df) = col_min (decade <$> df) →
     trend_text df = "DECLINED").
Proof.
  assert (Himp : trend_text df = "IMPROVED"
                 ↔ (old_success df < recent_success df)%Q).
  { unfold trend_text. rewrite <- Qgtb_true.
    destruct (Qgtb (recent_success df) (old_success df));
      split; intros H; try reflexivity; discriminate. }
  assert (Hdec : trend_text df = "DECLINED"
                 ↔ (recent_success df <= old_success df)%Q).
  { unfold trend_text.
    destruct (Qgtb (recent_success df) (old_success df)) eqn:Hg.
    - apply Qgtb_true in Hg. split; [discriminate|].
      intros Hle. exfalso. exact (Qlt_not_le _ _ Hg Hle).
    - split; [|reflexivity]. intros _.
      apply Qnot_lt_le. intros Hlt. apply Qgtb_true in Hlt. congruence. }
  split; [exact Himp|]. split; [exact Hdec|]. split.
  - intros Heq. apply Hdec. rewrite Heq. apply Qle_refl.
  - intros Hone. apply Hdec.
    unfold recent_success, old_success, recent_decade, old_decade.
    rewrite Hone. apply Qle_refl.
Qed.

Example level_rates :
  let df := process Sample.to_datetime Sample.level in
  recent_success df = (100 # 2)%Q ∧ old_success df = (100 # 2)%Q
  ∧ trend_text df = "DECLINED".
Proof. vm_compute. repeat split. Qed.

Lemma trend_improved_iff_strictly_greater_witness :
  let df := process Sample.to_datetime Sample.level in
  (recent_success df == old_success df)%Q
  ∧ trend_text df = "DECLINED"
  ∧ col_max (decade <$> process Sample.to_datetime Sample.unlocated)
    = col_min (decade <$> process Sample.to_datetime Sample.unlocated)
  ∧ trend_text (process Sample.to_datetime Sample.unlocated) = "DECLINED".
Proof.
  intros df.
  pose proof (trend_improved_iff_strictly_greater df) as (_ & _ & Heq & _).
  pose proof (trend_improved_iff_strictly_greater
                (process Sample.to_datetime Sample.unlocated))
    as (_ & _ & _ & Hone).
  assert (Hrates : (recent_success df == old_success df)%Q)
    by (vm_compute; reflexivity).
  assert (Hdecades :
            col_max (decade <$> process Sample.to_datetime Sample.unlocated)
            = col_min (decade <$> process Sample.to_datetime Sample.unlocated))
    by (vm_compute; reflexivity).
  exact (conj Hrates (conj (Heq Hrates) (conj Hdecades (Hone Hdecades)))).
Defined.

(** ** Loading and exporting *)

(** C7. When reading the input file raises, the script reads once,
    prints the report of the exception and exits at once: nothing is
    analysed and nothing is written.  No other failure is handled before
    the export: an exception of the analysis leaves the script as it is,
    without a report. *)
Theorem load_failure_reported_and_fatal (w : world) :
  (∀ e, csv_file w = inl e →
        main w = ([Print Banner; ReadCsv; Print (load_report e)], Exit)
        ∧ is_error_report (Print (load_report e)) = true
        ∧ Forall (λ ev, is_output ev = false) (main w).1
        ∧ length (filter (ReadCsv =.) (main w).1) = 1)
  ∧ (∀ df e, csv_file w = inr df → analysis_failure w = Some e →
             main w = ([Print Banner; ReadCsv; Print (Loaded (length df))],
                       Raised e)
             ∧ Forall (λ ev, is_error_report ev = false) (main w).1).
Proof.
  split.
  - intros e He.
    assert (Hmain : main w
                    = ([Print Banner; ReadCsv; Print (load_report e)], Exit)).
    { unfold main, load, load_report. rewrite He. simpl.
      destruct (isinstance e FileNotFoundError); reflexivity. }
    rewrite Hmain. split; [reflexivity|].
    split; [unfold load_report;
            destruct (isinstance e FileNotFoundError); reflexivity|].
    split; [|reflexivity].
    repeat constructor.
  - intros df e Hdf He.
    assert (Hmain : main w
                    = ([Print Banner; ReadCsv; Print (Loaded (length df))],
                       Raised e)).
    { unfold main, load, analysis. rewrite Hdf, He. reflexivity. }
    rewrite Hmain. split; [reflexivity|]. repeat constructor.
Qed.

Lemma load_failure_reported_and_fatal_witness :
  main Sample.no_file = ([Print Banner; ReadCsv; Print CsvNotFound], Exit)
  ∧ main Sample.bad_analysis
    = ([Print Banner; ReadCsv; Print (Loaded 0)],
       Raised (OtherException "ValueError")).
Proof.
  pose proof (load_failure_reported_and_fatal Sample.no_file) as [Hload _].
  pose proof (load_failure_reported_and_fatal Sample.bad_analysis) as [_ Han].
  split.
  - apply (Hload FileNotFoundError). reflexivity.
  - apply (Han [] (OtherException "ValueError")); reflexivity.
Defined.

(** Rewrites with every known outcome of a write. *)
Ltac known_writes :=
  repeat match goal with
         | H : write_failure _ _ = _ |- _ => rewrite H; clear H
         end.

Ltac split_plan before Hplan Hbefore :=
  let b := fresh "b" in
  let Hb := fresh "Hb" in
  destruct before as [|b before];
  [ simpl in Hplan; injection Hplan as <- <-
  | simpl in Hplan; injection Hplan as <- Hplan;
    apply Forall_cons in Hbefore as [Hb Hbefore] ].

(** C8. With the directory in place or created: when only the workbook
    fails, and with an [ImportError] or an exception of a class derived
    from it, such as [ModuleNotFoundError], every other file has been
    written, the workbook is skipped with a notice and the export ends
    normally; when a step fails otherwise, the files before it have been
    written, the exception is reported and nothing is written after it;
    a failure to create the directory is reported in the same way. *)
Theorem export_failures (w : world) :
  (∀ e,
     exports_exists w = true ∨ makedirs_failure w = None →
     Forall (λ a, write_failure w a = None) csv_exports →
     write_failure w ExcelWorkbook = Some e →
     isinstance e ImportError = true →
     export w = (dir_events w ++ written csv_exports
                   ++ [Print ExcelSkipped; Print AllSaved], Done tt))
  ∧ (∀ before a after e,
       exports_exists w = true ∨ makedirs_failure w = None →
       export_plan = before ++ a :: after →
       Forall (λ b, write_failure w b = None) before →
       write_failure w a = Some e →
       ¬ (a = ExcelWorkbook ∧ isinstance e ImportError = true) →
       export w = (dir_events w ++ written before ++ [Print (ExportError e)],
                   Done tt))
  ∧ (∀ e, exports_exists w = false → makedirs_failure w = Some e →
          export w = ([Print (ExportError e)], Done tt)).
Proof.
  split; [|split].
  - intros e Hdir Hcsv Hxl Himport.
    repeat (apply Forall_cons in Hcsv as [? Hcsv]).
    unfold export, write, makedirs, dir_events. known_writes.
    destruct Hdir as [Hdir|Hdir].
    + rewrite Hdir. simpl. rewrite Himport. reflexivity.
    + rewrite Hdir. destruct (exports_exists w); simpl; rewrite Himport;
        reflexivity.
  - intros before a after e Hdir Hplan Hbefore Ha Hnot.
    unfold export_plan, csv_exports in Hplan.
    simpl in Hplan.
    do 8 (split_plan before Hplan Hbefore;
          [ unfold export, write, makedirs, dir_events; known_writes;
            (destruct Hdir as [Hdir|Hdir];
             [ rewrite Hdir | rewrite Hdir; destruct (exports_exists w) ]);
            simpl;
            try (destruct (isinstance e ImportError) eqn:Himport;
                 [exfalso; apply Hnot; split; reflexivity|]);
            reflexivity
          | ]).
    destruct before; discriminate Hplan.
  - intros e Hno He. unfold export, makedirs. rewrite Hno, He. reflexivity.
Qed.

Lemma export_failures_witness :
  export Sample.no_openpyxl
  = ([MakeDirs; Print CreatedDir] ++ written csv_exports
       ++ [Print ExcelSkipped; Print AllSaved], Done tt)
  ∧ export Sample.no_module
    = (written csv_exports ++ [Print ExcelSkipped; Print AllSaved], Done tt)
  ∧ export Sample.disk_full
    = (written [ProcessedCsv; CountryCsv; OrgCsv]
         ++ [Print (ExportError (OtherException "OSError"))], Done tt).
Proof.
  pose proof (export_failures Sample.no_openpyxl) as [Hskip _].
  pose proof (export_failures Sample.no_module) as [Hsub _].
  pose proof (export_failures Sample.disk_full) as (_ & Habort & _).
  split; [|split].
  - apply (Hskip ImportError).
    + right. reflexivity.
    + repeat constructor.
    + reflexivity.
    + reflexivity.
  - apply (Hsub ModuleNotFoundError).
    + left. reflexivity.
    + repeat constructor.
    + reflexivity.
    + reflexivity.
  - apply (Habort [ProcessedCsv; CountryCsv; OrgCsv] YearlyCsv
                  [RocketCsv; SummaryTxt; DecadeCsv; ExcelWorkbook]
                  (OtherException "OSError")).
    + left. reflexivity.
    + reflexivity.
    + repeat constructor.
    + reflexivity.
    + intros [Ha _]. discriminate Ha.
Defined.

(** ** The CSV file read back *)

Lemma unquoted_plain (quote_cr : bool) (f : list ascii) :
  needs_quote quote_cr f = false →
  quote_cr = true ∨ CR ∉ f →
  Forall plain_char f.
Proof.
  intros Hq Hcr. apply Forall_forall. intros c Hc.
  unfold needs_quote in Hq.
  assert (Hs : special quote_cr c = false).
  { destruct (special quote_cr c) eqn:Hs; [|reflexivity].
    rewrite <- Hq. symmetry. apply existsb_exists. exists c.
    split; [apply list_elem_of_In; exact Hc | exact Hs]. }
  unfold special in Hs.
  apply orb_false_elim in Hs as [Hs Hcr'].
  apply orb_false_elim in Hs as [Hs Hlf].
  apply orb_false_elim in Hs as [Hcomma Hdq].
  repeat split; try assumption.
  destruct Hcr as [->|Hno]; [exact Hcr'|].
  apply Ascii.eqb_neq. intros ->. exact (Hno Hc).
Qed.

Lemma t_run_cons (st : t_state) (c : ascii) (cs : list ascii) :
  t_run st (c :: cs) = t_run (t_step st c) cs.
Proof. reflexivity. Qed.

Lemma t_run_app (st : t_state) (cs ds : list ascii) :
  t_run st (cs ++ ds) = t_run (t_run st cs) ds.
Proof. apply foldl_app. Qed.

Section Tokenizer.

Variables (fs : list string) (ls : list (list string)).

Lemma step_in_field_plain (b : list ascii) (c : ascii) :
  plain_char c →
  t_step (TState InField b fs ls) c = TState InField (b ++ [c]) fs ls.
Proof.
  intros (Hcomma & _ & Hlf & Hcr). unfold t_step, in_field_step. simpl.
  rewrite Hlf, Hcr, Hcomma. reflexivity.
Qed.

Lemma step_start_field_plain (c : ascii) :
  plain_char c →
  t_step (TState StartField [] fs ls) c = TState InField [c] fs ls.
Proof.
  intros (Hcomma & Hdq & Hlf & Hcr). unfold t_step, start_field_step. simpl.
  rewrite Hlf, Hcr, Hdq, Hcomma. reflexivity.
Qed.

Lemma step_whitespace_line_plain (b : list ascii) (c : ascii) :
  plain_char c →
  t_step (TState WhitespaceLine b fs ls) c
  = TState (if is_blank c then WhitespaceLine else InField) (b ++ [c]) fs ls.
Proof.
  intros (Hcomma & Hdq & Hlf & Hcr).
  unfold t_step, whitespace_line_step, in_field_step. simpl.
  rewrite Hlf, Hcr, Hcomma. destruct (is_blank c); reflexivity.
Qed.

Lemma step_start_record_plain (c : ascii) :
  plain_char c →
  t_step (TState StartRecord [] fs ls) c
  = TState (if is_blank c then WhitespaceLine else InField) [c] fs ls.
Proof.
  intros (Hcomma & Hdq & Hlf & Hcr).
  unfold t_step, start_record_step, start_field_step. simpl.
  rewrite Hlf, Hcr, Hdq, Hcomma. destruct (is_blank c); reflexivity.
Qed.

Lemma run_in_field (f : list ascii) :
  Forall plain_char f →
  ∀ b, t_run (TState InField b fs ls) f = TState InField (b ++ f) fs ls.
Proof.
  induction 1 as [|c f Hc _ IH]; intros b.
  - rewrite app_nil_r. reflexivity.
  - rewrite t_run_cons, step_in_field_plain by exact Hc.
    rewrite IH, <- app_assoc. reflexivity.
Qed.

Lemma run_whitespace_line (f : list ascii) :
  Forall plain_char f →
  ∀ b, ∃ m, (m = WhitespaceLine ∨ m = InField)
            ∧ t_run (TState WhitespaceLine b fs ls) f = TState m (b ++ f) fs ls.
Proof.
  induction 1 as [|c f Hc Hf IH]; intros b.
  - exists WhitespaceLine. rewrite app_nil_r. split; [left|]; reflexivity.
  - rewrite t_run_cons, step_whitespace_line_plain by exact Hc.
    destruct (is_blank c).
    + destruct (IH (b ++ [c])) as (m & Hm & Hrun). exists m.
      split; [exact Hm|]. rewrite Hrun, <- app_assoc. reflexivity.
    + exists InField. split; [right; reflexivity|].
      rewrite run_in_field by exact Hf. rewrite <- app_assoc. reflexivity.
Qed.

Lemma run_start_field (f : list ascii) :
  Forall plain_char f →
  ∃ m, (m = StartField ∨ m = InField)
       ∧ t_run (TState StartField [] fs ls) f = TState m f fs ls.
Proof.
  destruct 1 as [|c f Hc Hf].
  - exists StartField. split; [left|]; reflexivity.
  - exists InField. split; [right; reflexivity|].
    rewrite t_run_cons, step_start_field_plain by exact Hc.
    apply (run_in_field f Hf [c]).
Qed.

Lemma run_start_record (f : list ascii) :
  Forall plain_char f →
  ∃ m, (m = StartRecord ∨ m = WhitespaceLine ∨ m = InField)
       ∧ t_run (TState StartRecord [] fs ls) f = TState m f fs ls.
Proof.
  destruct 1 as [|c f Hc Hf].
  - exists StartRecord. split; [left|]; reflexivity.
  - rewrite t_run_cons, step_start_record_plain by exact Hc.
    destruct (is_blank c).
    + destruct (run_whitespace_line f Hf [c]) as (m & Hm & Hrun).
      exists m. split; [right; exact Hm | exact Hrun].
    + exists InField. split; [right; right; reflexivity|].
      apply (run_in_field f Hf [c]).
Qed.

Lemma run_quoted_body (f : list ascii) :
  ∀ b, t_run (TState InQuotedField b fs ls) (escape f)
       = TState InQuotedField (b ++ f) fs ls.
Proof.
  induction f as [|c f IH]; intros b.
  - rewrite app_nil_r. reflexivity.
  - change (escape (c :: f))
      with ((if Ascii.eqb c DQUOTE then [DQUOTE; DQUOTE] else [c]) ++ escape f).
    rewrite t_run_app.
    assert (Hc : t_run (TState InQuotedField b fs ls)
                       (if Ascii.eqb c DQUOTE then [DQUOTE; DQUOTE] else [c])
                 = TState InQuotedField (b ++ [c]) fs ls).
    { destruct (Ascii.eqb c DQUOTE) eqn:Hc.
      - apply Ascii.eqb_eq in Hc. subst c. reflexivity.
      - rewrite t_run_cons. unfold t_step, in_quoted_field_step. simpl.
        rewrite Hc. reflexivity. }
    rewrite Hc, IH, <- app_assoc. reflexivity.
Qed.

Lemma run_quoted (m0 : t_mode) (f : list ascii) :
  m0 = StartRecord ∨ m0 = StartField →
  t_run (TState m0 [] fs ls) (DQUOTE :: escape f ++ [DQUOTE])
  = TState QuoteInQuotedField f fs ls.
Proof.
  intros Hm0. rewrite t_run_cons.
  assert (Hopen : t_step (TState m0 [] fs ls) DQUOTE
                  = TState InQuotedField [] fs ls)
    by (destruct Hm0 as [->| ->]; reflexivity).
  rewrite Hopen, t_run_app, run_quoted_body. reflexivity.
Qed.

Lemma ending_closing (m : t_mode) : ending m → closing m.
Proof. unfold ending, closing. tauto. Qed.

Lemma step_comma (m : t_mode) (b : list ascii) :
  closing m →
  t_step (TState m b fs ls) COMMA
  = TState StartField [] (fs ++ [string_of_list_ascii b]) ls.
Proof. intros [->|[->|[->|[->| ->]]]]; reflexivity. Qed.

Lemma step_lf (m : t_mode) (b : list ascii) :
  ending m →
  t_step (TState m b fs ls) LF
  = TState StartRecord [] [] (ls ++ [fs ++ [string_of_list_ascii b]]).
Proof. intros [->|[->| ->]]; reflexivity. Qed.

End Tokenizer.

Section WriterReader.

Variable quote_cr : bool.

Lemma read_first_field (f : string) (fs : list string) (ls : list (list string)) :
  readable quote_cr f →
  ∃ m, closing m
       ∧ t_run (TState StartRecord [] fs ls) (render_field quote_cr f)
         = TState m (list_ascii_of_string f) fs ls.
Proof.
  intros Hf. unfold render_field. cbv zeta.
  destruct (needs_quote quote_cr (list_ascii_of_string f)) eqn:Hq.
  - exists QuoteInQuotedField. split; [unfold closing; tauto|].
    apply run_quoted. left. reflexivity.
  - destruct (run_start_record fs ls _ (unquoted_plain _ _ Hq Hf))
      as (m & Hm & Hrun).
    exists m. split; [unfold closing; tauto | exact Hrun].
Qed.

Lemma read_next_field (f : string) (fs : list string) (ls : list (list string)) :
  readable quote_cr f →
  ∃ m, ending m
       ∧ t_run (TState StartField [] fs ls) (render_field quote_cr f)
         = TState m (list_ascii_of_string f) fs ls.
Proof.
  intros Hf. unfold render_field. cbv zeta.
  destruct (needs_quote quote_cr (list_ascii_of_string f)) eqn:Hq.
  - exists QuoteInQuotedField. split; [unfold ending; tauto|].
    apply run_quoted. right. reflexivity.
  - destruct (run_start_field fs ls _ (unquoted_plain _ _ Hq Hf))
      as (m & Hm & Hrun).
    exists m. split; [unfold ending; tauto | exact Hrun].
Qed.

Lemma read_fields (rest : list string) :
  ∀ (f : string) (fs : list string) (ls : list (list string)),
    Forall (readable quote_cr) (f :: rest) →
    t_run (TState StartField [] fs ls)
          (join_fields (render_field quote_cr <$> f :: rest) ++ [LF])
    = TState StartRecord [] [] (ls ++ [fs ++ f :: rest]).
Proof.
  induction rest as [|g rest IH]; intros f fs ls Hok;
    apply Forall_cons in Hok as [Hf Hrest];
    destruct (read_next_field f fs ls Hf) as (m & Hm & Hrun).
  - simpl. rewrite t_run_app, Hrun. simpl.
    rewrite (step_lf fs ls m _ Hm), string_of_list_ascii_of_string.
    reflexivity.
  - change (join_fields (render_field quote_cr <$> f :: g :: rest))
      with (render_field quote_cr f
            ++ COMMA :: join_fields (render_field quote_cr <$> g :: rest)).
    rewrite <- app_assoc, t_run_app, Hrun. rewrite <- app_comm_cons, t_run_cons.
    rewrite (step_comma fs ls m _ (ending_closing m Hm)).
    rewrite string_of_list_ascii_of_string, IH by exact Hrest.
    rewrite <- app_assoc. reflexivity.
Qed.

Lemma read_row (row : list string) (ls : list (list string)) :
  readable_row quote_cr row →
  t_run (TState StartRecord [] [] ls) (render_row quote_cr row)
  = TState StartRecord [] [] (ls ++ [row]).
Proof.
  intros [Hlen Hok].
  destruct row as [|f [|g rest]]; simpl in Hlen; try lia.
  apply Forall_cons in Hok as [Hf Hrest].
  assert (Hrow : render_row quote_cr (f :: g :: rest)
                 = render_field quote_cr f
                   ++ COMMA :: join_fields (render_field quote_cr <$> g :: rest)
                   ++ [LF]).
  { assert (H : ∀ f0, render_row quote_cr (f0 :: g :: rest)
                      = join_fields (render_field quote_cr <$> f0 :: g :: rest)
                        ++ [LF]) by (intros []; reflexivity).
    rewrite H.
    change (join_fields (render_field quote_cr <$> f :: g :: rest))
      with (render_field quote_cr f
            ++ COMMA :: join_fields (render_field quote_cr <$> g :: rest)).
    rewrite <- app_assoc. reflexivity. }
  rewrite Hrow, t_run_app.
  destruct (read_first_field f [] ls Hf) as (m & Hm & Hrun).
  rewrite Hrun, t_run_cons, (step_comma [] ls m _ Hm).
  rewrite string_of_list_ascii_of_string, read_fields by exact Hrest.
  reflexivity.
Qed.

Lemma read_rows (rows : list (list string)) :
  ∀ ls, Forall (readable_row quote_cr) rows →
        t_run (TState StartRecord [] [] ls) (rows ≫= render_row quote_cr)
        = TState StartRecord [] [] (ls ++ rows).
Proof.
  induction rows as [|row rows IH]; intros ls Hok.
  - rewrite app_nil_r. reflexivity.
  - apply Forall_cons in Hok as [Hrow Hrows].
    change ((row :: rows) ≫= render_row quote_cr)
      with (render_row quote_cr row ++ (rows ≫= render_row quote_cr)).
    rewrite t_run_app, read_row, IH by assumption.
    rewrite <- app_assoc. reflexivity.
Qed.

(** What is written is what is read: the tokenizer gives back the rows
    of a file made of readable rows. *)
Lemma tokenize_write_csv (rows : list (list string)) :
  Forall (readable_row quote_cr) rows →
  tokenize (write_csv quote_cr rows) = Some rows.
Proof.
  intros Hok. unfold tokenize, write_csv.
  rewrite list_ascii_of_string_of_list_ascii, read_rows by exact Hok.
  reflexivity.
Qed.

End WriterReader.

(** *** Typed cells *)

Lemma parse_print_int (z : Z) : parse_int (print_int z) = Some z.
Proof.
  unfold parse_int, print_int.
  assert (Hnil : ∀ d, Z.to_int z = d → Z.of_int d = 0%Z → Z.to_int 0 = d).
  { intros d Hd Hz. rewrite <- Hd in Hz. rewrite of_to in Hz. subst z.
    exact Hd. }
  rewrite NilZero.isi.
  - simpl. rewrite of_to. reflexivity.
  - intros H. specialize (Hnil _ H eq_refl). discriminate Hnil.
  - intros H. specialize (Hnil _ H eq_refl). discriminate Hnil.
Qed.

Lemma parse_print_bool (b : bool) : parse_bool (print_bool b) = Some b.
Proof. destruct b; reflexivity. Qed.

Lemma parse_int_print_bool (b : bool) : parse_int (print_bool b) = None.
Proof. destruct b; reflexivity. Qed.

Lemma infer_column_ints (zs : list Z) :
  infer_column ((Some ∘ print_int) <$> zs) = VInt <$> zs.
Proof.
  unfold infer_column.
  assert (H : mapM (λ c, c ≫= parse_int) ((Some ∘ print_int) <$> zs) = Some zs).
  { apply mapM_Some. induction zs as [|z zs IH]; constructor; [|exact IH].
    simpl. apply parse_print_int. }
  rewrite H. reflexivity.
Qed.

Lemma infer_column_bools (bs : list bool) :
  infer_column ((Some ∘ print_bool) <$> bs) = VBool <$> bs.
Proof.
  unfold infer_column. destruct bs as [|b bs]; [reflexivity|].
  assert (Hint : mapM (λ c, c ≫= parse_int) ((Some ∘ print_bool) <$> b :: bs)
                 = None).
  { apply mapM_None. left. simpl. apply parse_int_print_bool. }
  assert (Hbool : mapM (λ c, c ≫= parse_bool) ((Some ∘ print_bool) <$> b :: bs)
                  = Some (b :: bs)).
  { apply mapM_Some. generalize (b :: bs) as l.
    induction l as [|x l IH]; constructor; [|exact IH].
    simpl. apply parse_print_bool. }
  rewrite Hint, Hbool. reflexivity.
Qed.

(** *** The processed table *)

Section RoundTrip.

Variable quote_cr : bool.
Variable format_timestamp : Timestamp → string.

Lemma header_readable : readable_row quote_cr processed_columns.
Proof.
  split; [simpl; lia|].
  assert (H : Forall (λ f, CR ∉ list_ascii_of_string f) processed_columns)
    by (apply (bool_decide_unpack _); vm_compute; exact I).
  eapply Forall_impl; [exact H|]. intros f Hf. right. exact Hf.
Qed.

Lemma rows_readable (df : DataFrame) :
  quote_cr = true ∨ cr_free (row_fields format_timestamp <$> df) →
  Forall (readable_row quote_cr) (row_fields format_timestamp <$> df).
Proof.
  intros Hcr. apply Forall_fmap, Forall_forall. intros r Hr.
  split; [simpl; lia|].
  destruct Hcr as [Hq|Hfree].
  - apply Forall_forall. intros f _. left. exact Hq.
  - unfold cr_free in Hfree. rewrite Forall_fmap, Forall_forall in Hfree.
    eapply Forall_impl; [exact (Hfree r Hr)|]. intros f Hf. right. exact Hf.
Qed.

(** The file of a table with readable rows is read back with the header
    of the processed table and one record per row, holding the fields
    as written. *)
Lemma read_to_csv (df : DataFrame) :
  quote_cr = true ∨ cr_free (row_fields format_timestamp <$> df) →
  read_csv (to_csv quote_cr format_timestamp df)
  = Some (Frame processed_columns ((λ r, Some <$> row_fields format_timestamp r) <$> df)).
Proof.
  intros Hcr. unfold read_csv, to_csv.
  rewrite tokenize_write_csv
    by (apply Forall_cons; split; [apply header_readable | apply rows_readable, Hcr]).
  assert (Hwidth : forallb (λ fs, length fs <=? length processed_columns)
                           (row_fields format_timestamp <$> df) = true).
  { induction df as [|r df IH]; [reflexivity|].
    rewrite fmap_cons. simpl forallb. apply IH.
    destruct Hcr as [Hq|Hfree]; [left; exact Hq | right].
    unfold cr_free in *. rewrite fmap_cons in Hfree.
    apply Forall_cons in Hfree as [_ Hfree]. exact Hfree. }
  rewrite Hwidth. f_equal. f_equal.
  rewrite <- list_fmap_compose. apply list_fmap_ext. intros _ r _.
  unfold pad_record, compose. exact (app_nil_r _).
Qed.

Lemma column_cells (df : DataFrame) (name : string) (i : nat)
    (cell : row → string) :
  column_index name processed_columns = Some i →
  (∀ r, row_fields format_timestamp r !! i = Some (cell r)) →
  column (Frame processed_columns ((λ r, Some <$> row_fields format_timestamp r) <$> df)) name
  = Some (infer_column ((Some ∘ cell) <$> df)).
Proof.
  intros Hi Hcell. unfold column. cbn [f_columns f_records].
  rewrite Hi. cbn [mbind option_bind].
  assert (H : mapM (λ r : list (option string), r !! i)
                   ((λ r, Some <$> row_fields format_timestamp r) <$> df)
              = Some ((Some ∘ cell) <$> df)).
  { apply mapM_Some. induction df as [|r df IH]; constructor; [|exact IH].
    rewrite list_lookup_fmap, Hcell. reflexivity. }
  rewrite H. reflexivity.
Qed.

Lemma int_cells (key : row → option Z) (df : DataFrame) (zs : list Z) :
  key <$> df = Some <$> zs →
  (Some ∘ (λ r, int_cell (key r))) <$> df = (Some ∘ print_int) <$> zs.
Proof.
  revert zs. induction df as [|r df IH]; intros [|z zs] H;
    try discriminate H; [reflexivity|].
  rewrite !fmap_cons in H. injection H as Hr Hdf.
  rewrite !fmap_cons, (IH _ Hdf). simpl. rewrite Hr. reflexivity.
Qed.

Lemma nonnull_values {A} (col : list (option A)) :
  nonnull col → ∃ vs, col = Some <$> vs.
Proof.
  induction 1 as [|v col [x ->] _ (vs & ->)].
  - exists []. reflexivity.
  - exists (x :: vs). reflexivity.
Qed.

(** The round trip of a table whose years and decades are all present. *)
Lemma csv_round_trip (df : DataFrame) (ys ds : list Z) :
  quote_cr = true ∨ cr_free (row_fields format_timestamp <$> df) →
  year <$> df = Some <$> ys →
  decade <$> df = Some <$> ds →
  ∃ fr, read_csv (to_csv quote_cr format_timestamp df) = Some fr
        ∧ length (f_records fr) = length df
        ∧ column fr "year" = Some (VInt <$> ys)
        ∧ column fr "decade" = Some (VInt <$> ds)
        ∧ column fr "success" = Some (VBool <$> (success <$> df)).
Proof.
  intros Hcr Hys Hds. eexists. split; [apply read_to_csv, Hcr|].
  split; [simpl; apply length_fmap|].
  split; [|split].
  - rewrite (column_cells df "year" 9 (λ r, int_cell (year r)))
      by reflexivity.
    rewrite (int_cells year df ys Hys), infer_column_ints. reflexivity.
  - rewrite (column_cells df "decade" 12 (λ r, int_cell (decade r)))
      by reflexivity.
    rewrite (int_cells decade df ds Hds), infer_column_ints. reflexivity.
  - rewrite (column_cells df "success" 14 (λ r, print_bool (success r)))
      by reflexivity.
    rewrite (list_fmap_compose success (Some ∘ print_bool)).
    rewrite infer_column_bools. reflexivity.
Qed.

End RoundTrip.

Lemma process_years_decades
    (to_datetime : list (option string) → list (option Timestamp))
    (raw : list csv_row) :
  nonnull (year <$> process to_datetime raw)
  ∧ nonnull (decade <$> process to_datetime raw).
Proof.
  split; apply Forall_fmap, Forall_forall; intros r Hr;
    apply elem_of_process in Hr as (c & d & _ & ->); simpl; eexists;
    reflexivity.
Qed.

(** C9, for the files the reader takes back.  When no field of the
    exported table holds a carriage return, or the writer quotes a field
    for one, reading the exported file of the processed table gives one
    record per row of the table, and the columns [year], [decade] and
    [success] come back as the integers and booleans of the table. *)
Theorem processed_csv_round_trip
    (quote_cr : bool) (format_timestamp : Timestamp → string)
    (to_datetime : list (option string) → list (option Timestamp))
    (raw : list csv_row) :
  let df := process to_datetime raw in
  quote_cr = true ∨ cr_free (row_fields format_timestamp <$> df) →
  ∃ fr ys ds,
    read_csv (to_csv quote_cr format_timestamp df) = Some fr
    ∧ length (f_records fr) = length df
    ∧ year <$> df = Some <$> ys
    ∧ column fr "year" = Some (VInt <$> ys)
    ∧ decade <$> df = Some <$> ds
    ∧ column fr "decade" = Some (VInt <$> ds)
    ∧ column fr "success" = Some (VBool <$> (success <$> df)).
Proof.
  intros df Hcr.
  destruct (process_years_decades to_datetime raw) as [Hy Hd].
  apply nonnull_values in Hy as (ys & Hys).
  apply nonnull_values in Hd as (ds & Hds).
  destruct (csv_round_trip quote_cr format_timestamp df ys ds Hcr Hys Hds)
    as (fr & Hread & Hlen & Hyear & Hdecade & Hsuccess).
  exists fr, ys, ds. repeat (split; [assumption|]). assumption.
Qed.

Lemma processed_csv_round_trip_witness :
  let df := process Sample.to_datetime Sample.launches in
  cr_free (row_fields Sample.format_timestamp <$> df)
  ∧ ∃ fr ys ds,
      read_csv (to_csv false Sample.format_timestamp df) = Some fr
      ∧ length (f_records fr) = length df
      ∧ year <$> df = Some <$> ys
      ∧ column fr "year" = Some (VInt <$> ys)
      ∧ decade <$> df = Some <$> ds
      ∧ column fr "decade" = Some (VInt <$> ds)
      ∧ column fr "success" = Some (VBool <$> (success <$> df)).
Proof.
  intros df.
  assert (Hfree : cr_free (row_fields Sample.format_timestamp <$> df))
    by (apply (bool_decide_unpack _); vm_compute; exact I).
  split; [exact Hfree|].
  apply (processed_csv_round_trip false Sample.format_timestamp
           Sample.to_datetime Sample.launches).
  right. exact Hfree.
Defined.

(** C9 as worded fails where the writer does not quote a field for a
    carriage return: the rocket name with one is written bare, the
    reader ends a line at it, and the one row of the table comes back as
    three records. *)
Lemma carriage_return_breaks_round_trip :
  let df := process Sample.to_datetime Sample.cr_launch in
  length df = 1
  ∧ ∃ fr, read_csv (to_csv false Sample.format_timestamp df) = Some fr
          ∧ length (f_records fr) = 3
          ∧ length (f_records fr) ≠ length df.
Proof.
  vm_compute. split; [reflexivity|]. eexists. split; [reflexivity|].
  split; [reflexivity | discriminate].
Qed.

(** * Further properties of the script *)

(** Unfolds [filter] on the head of a list, everywhere in the goal. *)
Ltac filter_step :=
  repeat match goal with
         | |- context [filter ?P (?x :: ?l)] => rewrite (filter_cons P x l)
         end.

(** ** Text around a separator *)

Lemma split_nonempty (sep : ascii) (s : string) : PyStr.split sep s ≠ [].
Proof.
  destruct s as [|c s]; simpl; [discriminate|].
  destruct (Ascii.eqb c sep); [discriminate|].
  destruct (PyStr.split sep s); discriminate.
Qed.

Lemma split_no_sep (sep : ascii) (s p : string) :
  p ∈ PyStr.split sep s → sep ∉ chars p.
Proof.
  revert p. induction s as [|c s IH]; intros p Hp; simpl in Hp.
  - apply list_elem_of_singleton in Hp. subst p. apply not_elem_of_nil.
  - destruct (Ascii.eqb c sep) eqn:Hc.
    + apply elem_of_cons in Hp as [->|Hp]; [apply not_elem_of_nil | exact (IH p Hp)].
    + apply Ascii.eqb_neq in Hc.
      destruct (PyStr.split sep s) as [|h t] eqn:Hs.
      * exfalso. exact (split_nonempty sep s Hs).
      * apply elem_of_cons in Hp as [->|Hp].
        -- unfold chars. simpl. intros [Heq|Hin]%elem_of_cons.
           ++ apply Hc. symmetry. exact Heq.
           ++ apply (IH h); [left | exact Hin].
        -- apply IH. right. exact Hp.
Qed.

Lemma split_without_sep (sep : ascii) (s : string) :
  sep ∉ chars s → PyStr.split sep s = [s].
Proof.
  induction s as [|c s IH]; intros Hs; [reflexivity|].
  unfold chars in Hs. simpl in Hs. apply not_elem_of_cons in Hs as [Hc Hs].
  simpl. rewrite (proj2 (Ascii.eqb_neq c sep)) by congruence.
  rewrite (IH Hs). reflexivity.
Qed.

(** Splitting a text with a separator in it: the pieces before it, then
    the pieces after it. *)
Lemma split_app (sep : ascii) (a b : string) :
  ∃ pre h,
    PyStr.split sep a = pre ++ [h]
    ∧ PyStr.split sep (a +:+ String sep b) = pre ++ h :: PyStr.split sep b.
Proof.
  induction a as [|c a (pre & h & Ha & Hab)]; simpl.
  - rewrite Ascii.eqb_refl. exists [], EmptyString. split; reflexivity.
  - destruct (Ascii.eqb c sep).
    + exists (EmptyString :: pre), h. rewrite Ha, Hab. split; reflexivity.
    + rewrite Ha, Hab. destruct pre as [|p pre]; simpl.
      * exists [], (String c h). split; reflexivity.
      * exists (String c p :: pre), h. split; reflexivity.
Qed.

Lemma final_split_app (sep : ascii) (a b : string) :
  sep ∉ chars b →
  PyStr.final (PyStr.split sep (a +:+ String sep b)) = Some b.
Proof.
  intros Hb. destruct (split_app sep a b) as (pre & h & _ & H).
  rewrite H, (split_without_sep sep b Hb). unfold PyStr.final.
  change (pre ++ [h; b]) with (pre ++ [h] ++ [b]).
  rewrite app_assoc. apply last_snoc.
Qed.

Lemma first_split_app (sep : ascii) (a b : string) :
  sep ∉ chars a →
  PyStr.first (PyStr.split sep (a +:+ String sep b)) = Some a.
Proof.
  intros Ha. destruct (split_app sep a b) as (pre & h & Hsplit & H).
  rewrite H. unfold PyStr.first.
  rewrite (split_without_sep sep a Ha) in Hsplit.
  destruct pre as [|p [|q pre]]; try discriminate Hsplit.
  injection Hsplit as ->. reflexivity.
Qed.

(** [strip] removes characters only, and leaves no white space at
    either end. *)
Lemma append_nil (b : string) : EmptyString +:+ b = b.
Proof. reflexivity. Qed.

Lemma append_cons (x : ascii) (a b : string) :
  String x a +:+ b = String x (a +:+ b).
Proof. reflexivity. Qed.

Lemma chars_app (a b : string) : chars (a +:+ b) = chars a ++ chars b.
Proof.
  unfold chars. induction a as [|c a IH]; [reflexivity|].
  rewrite append_cons. simpl. f_equal. exact IH.
Qed.

Lemma append_assoc (a b c : string) : (a +:+ b) +:+ c = a +:+ (b +:+ c).
Proof.
  induction a as [|x a IH]; [reflexivity|].
  rewrite !append_cons, IH. reflexivity.
Qed.

Lemma append_empty (a b : string) :
  a +:+ b = EmptyString → a = EmptyString ∧ b = EmptyString.
Proof.
  destruct a; [rewrite append_nil; intros ->; split; reflexivity|].
  rewrite append_cons. discriminate.
Qed.

(** A white space character takes one, two or three bytes. *)
Lemma space_shape (w : string) :
  PyStr.is_space w = true →
  (∃ a, w = String a EmptyString)
  ∨ (∃ a b, w = String a (String b EmptyString))
  ∨ (∃ a b c, w = String a (String b (String c EmptyString))).
Proof.
  unfold PyStr.is_space. intros H. apply bool_decide_eq_true in H.
  vm_compute in H.
  repeat (apply elem_of_cons in H as [->|H]; [eauto 8|]).
  apply elem_of_nil in H. contradiction.
Qed.

(** What [lstrip] looks at when a text starts with white space. *)
Lemma space_prefix (w t : string) :
  PyStr.is_space w = true →
  match w +:+ t with
  | EmptyString => False
  | String a s1 =>
      PyStr.is_space (String a EmptyString) = true
      ∨ match s1 with
        | EmptyString => False
        | String b s2 =>
            PyStr.is_space (String a (String b EmptyString)) = true
            ∨ match s2 with
              | EmptyString => False
              | String c _ =>
                  PyStr.is_space (String a (String b (String c EmptyString)))
                  = true
              end
        end
  end.
Proof.
  intros Hw.
  destruct (space_shape w Hw) as [(a & ->)|[(a & b & ->)|(a & b & c & ->)]];
    rewrite ?append_cons, ?append_nil.
  - left. exact Hw.
  - right. left. exact Hw.
  - right. right. exact Hw.
Qed.

Lemma lstrip_spec (n : nat) (s : string) :
  String.length s ≤ n →
  (∀ w t, PyStr.is_space w = true → PyStr.lstrip s ≠ w +:+ t)
  ∧ ∃ p, s = p +:+ PyStr.lstrip s.
Proof.
  revert s. induction n as [|n IH]; intros s Hlen.
  { destruct s; [|simpl in Hlen; lia]. simpl. split.
    - intros w t Hw Heq. pose proof (space_prefix w t Hw) as Hp.
      rewrite <- Heq in Hp. exact Hp.
    - exists EmptyString. reflexivity. }
  assert (Hkeep : ∀ s,
             match s with
             | EmptyString => True
             | String a s1 =>
                 PyStr.is_space (String a EmptyString) = false
                 ∧ match s1 with
                   | EmptyString => True
                   | String b s2 =>
                       PyStr.is_space (String a (String b EmptyString)) = false
                       ∧ match s2 with
                         | EmptyString => True
                         | String c _ =>
                             PyStr.is_space
                               (String a (String b (String c EmptyString)))
                             = false
                         end
                   end
             end →
             ∀ w t, PyStr.is_space w = true → s ≠ w +:+ t).
  { intros x Hx w t Hw Heq. pose proof (space_prefix w t Hw) as Hp.
    rewrite <- Heq in Hp.
    destruct x as [|a [|b [|c x]]]; simpl in Hp, Hx; intuition congruence. }
  destruct s as [|a s1]; simpl.
  { split; [apply Hkeep; exact I | exists EmptyString; reflexivity]. }
  simpl in Hlen.
  destruct (PyStr.is_space (String a EmptyString)) eqn:H1.
  { destruct (IH s1 ltac:(lia)) as [Hno [p Hp]]. split; [exact Hno|].
    exists (String a p). rewrite append_cons. f_equal. exact Hp. }
  destruct s1 as [|b s2].
  { split; [apply Hkeep; split; [exact H1 | exact I]
           | exists EmptyString; reflexivity]. }
  simpl in Hlen.
  destruct (PyStr.is_space (String a (String b EmptyString))) eqn:H2.
  { destruct (IH s2 ltac:(lia)) as [Hno [p Hp]]. split; [exact Hno|].
    exists (String a (String b p)). rewrite !append_cons. do 2 f_equal.
    exact Hp. }
  destruct s2 as [|c s3].
  { split; [apply Hkeep; repeat split; assumption
           | exists EmptyString; reflexivity]. }
  simpl in Hlen.
  destruct (PyStr.is_space (String a (String b (String c EmptyString))))
    eqn:H3.
  { destruct (IH s3 ltac:(lia)) as [Hno [p Hp]]. split; [exact Hno|].
    exists (String a (String b (String c p))). rewrite !append_cons.
    do 3 f_equal. exact Hp. }
  split; [apply Hkeep; repeat split; assumption
         | exists EmptyString; reflexivity].
Qed.

Lemma rstrip_spec (s : string) :
  (∀ w t, PyStr.is_space w = true → PyStr.rstrip s ≠ t +:+ w)
  ∧ ∃ q, s = PyStr.rstrip s +:+ q.
Proof.
  induction s as [|c s [IHno [q IHq]]]; simpl.
  - split; [|exists EmptyString; reflexivity].
    intros w t Hw Heq. symmetry in Heq.
    apply append_empty in Heq as [_ ->]. discriminate Hw.
  - destruct (PyStr.is_space (String c (PyStr.rstrip s))) eqn:Hc.
    + split; [|exists (String c s); reflexivity].
      intros w t Hw Heq. symmetry in Heq.
      apply append_empty in Heq as [_ ->]. discriminate Hw.
    + split; [|exists q; rewrite append_cons; f_equal; exact IHq].
      intros w t Hw Heq. destruct t as [|c' t].
      * rewrite append_nil in Heq. subst w. congruence.
      * rewrite append_cons in Heq. injection Heq as _ Heq.
        exact (IHno w t Hw Heq).
Qed.

Lemma chars_strip (s : string) (c : ascii) :
  c ∈ chars (PyStr.strip s) → c ∈ chars s.
Proof.
  unfold PyStr.strip. intros H.
  destruct (rstrip_spec s) as [_ [q Hq]].
  destruct (lstrip_spec _ (PyStr.rstrip s) (le_n _)) as [_ [p Hp]].
  rewrite Hq, Hp, !chars_app, !elem_of_app. left. right. exact H.
Qed.

Lemma strip_stripped (s : string) : stripped (PyStr.strip s).
Proof.
  unfold PyStr.strip. intros w t Hw.
  destruct (rstrip_spec s) as [Hend _].
  destruct (lstrip_spec _ (PyStr.rstrip s) (le_n _)) as [Hstart [p Hp]].
  split; [exact (Hstart w t Hw)|].
  intros Heq. apply (Hend w (p +:+ t) Hw).
  rewrite append_assoc, <- Heq. exact Hp.
Qed.

(** A text that [strip] leaves as it is has no white space at either
    end. *)
Lemma stripped_fixed (s : string) : PyStr.strip s = s → stripped s.
Proof. intros H. rewrite <- H. apply strip_stripped. Qed.

(** X1. The country of a location: NaN for a missing location; for a
    location without a comma the whole of it, stripped; otherwise what
    follows its last comma, stripped.  Stripping removes every leading
    and trailing character of [str.isspace], the Unicode spaces
    included. *)
Theorem extract_country_cases (site rest s : string) :
  extract_country None = None
  ∧ (COMMA ∉ chars s → extract_country (Some s) = Some (PyStr.strip s))
  ∧ (COMMA ∉ chars rest →
     extract_country (Some (site +:+ String "," rest))
     = Some (PyStr.strip rest)).
Proof.
  split; [reflexivity|]. split.
  - intros Hs. unfold extract_country. simpl.
    rewrite (split_without_sep ","%char s Hs). reflexivity.
  - intros Hrest. unfold extract_country. simpl.
    rewrite (final_split_app ","%char site rest Hrest). reflexivity.
Qed.

Lemma extract_country_cases_witness :
  extract_country (Some "Kazakhstan") = Some "Kazakhstan"
  ∧ extract_country (Some "Site 1/5, Baikonur Cosmodrome, Kazakhstan")
    = Some "Kazakhstan"
  ∧ extract_country (Some ("Pad" +:+ String "," (" USA" +:+ NBSP)))
    = Some "USA".
Proof.
  pose proof (extract_country_cases EmptyString EmptyString "Kazakhstan")
    as (_ & Hwhole & _).
  pose proof (extract_country_cases "Site 1/5, Baikonur Cosmodrome"
                " Kazakhstan" EmptyString) as (_ & _ & Hlast).
  pose proof (extract_country_cases "Pad" (" USA" +:+ NBSP) EmptyString)
    as (_ & _ & Hspace).
  split; [|split].
  - apply Hwhole. apply (bool_decide_unpack _). vm_compute. exact I.
  - apply Hlast. apply (bool_decide_unpack _). vm_compute. exact I.
  - apply Hspace. apply (bool_decide_unpack _). vm_compute. exact I.
Defined.

(** X2. The rocket family of a rocket detail: NaN for a missing
    detail; for a detail without a bar the whole of it, stripped;
    otherwise what precedes its first bar, stripped, of the Unicode
    spaces as well. *)
Theorem extract_rocket_family_cases (family mission s : string) :
  extract_rocket_family None = None
  ∧ (BAR ∉ chars s →
     extract_rocket_family (Some s) = Some (PyStr.strip s))
  ∧ (BAR ∉ chars family →
     extract_rocket_family (Some (family +:+ String "|" mission))
     = Some (PyStr.strip family)).
Proof.
  split; [reflexivity|]. split.
  - intros Hs. unfold extract_rocket_family. simpl.
    rewrite (split_without_sep "|"%char s Hs). reflexivity.
  - intros Hfam. unfold extract_rocket_family. simpl.
    rewrite (first_split_app "|"%char family mission Hfam). reflexivity.
Qed.

Lemma extract_rocket_family_cases_witness :
  extract_rocket_family (Some "Vostok") = Some "Vostok"
  ∧ extract_rocket_family (Some "Falcon 9 Block 5 | Starlink | rideshare")
    = Some "Falcon 9 Block 5"
  ∧ extract_rocket_family
      (Some ((NBSP +:+ "Falcon 9 Block 5 ") +:+ String "|" " Crew Dragon"))
    = Some "Falcon 9 Block 5".
Proof.
  pose proof (extract_rocket_family_cases EmptyString EmptyString "Vostok")
    as (_ & Hwhole & _).
  pose proof (extract_rocket_family_cases "Falcon 9 Block 5 "
                " Starlink | rideshare" EmptyString) as (_ & _ & Hfirst).
  pose proof (extract_rocket_family_cases (NBSP +:+ "Falcon 9 Block 5 ")
                " Crew Dragon" EmptyString) as (_ & _ & Hspace).
  split; [|split].
  - apply Hwhole. apply (bool_decide_unpack _). vm_compute. exact I.
  - apply Hfirst. apply (bool_decide_unpack _). vm_compute. exact I.
  - apply Hspace. apply (bool_decide_unpack _). vm_compute. exact I.
Defined.

(** ** The text columns of the cleaned table *)

Lemma extract_country_None (location : option string) :
  extract_country location = None ↔ location = None.
Proof.
  destruct location as [s|]; simpl; [|tauto].
  unfold extract_country, PyStr.final. simpl.
  destruct (last (PyStr.split "," s)) eqn:Hlast; simpl.
  - split; discriminate.
  - exfalso. apply (split_nonempty "," s), last_None, Hlast.
Qed.

Lemma extract_rocket_family_None (detail : option string) :
  extract_rocket_family detail = None ↔ detail = None.
Proof.
  destruct detail as [s|]; simpl; [|tauto].
  unfold extract_rocket_family, PyStr.first. simpl.
  destruct (PyStr.split "|" s) eqn:Hsplit; simpl.
  - exfalso. exact (split_nonempty "|" s Hsplit).
  - split; discriminate.
Qed.

Lemma extract_country_clean (location : option string) (token : string) :
  extract_country location = Some token →
  (COMMA ∉ chars token) ∧ stripped token.
Proof.
  destruct location as [s|]; [|discriminate].
  unfold extract_country, PyStr.final. simpl.
  destruct (last (PyStr.split "," s)) as [p|] eqn:Hlast; [|discriminate].
  simpl. intros [= <-]. split; [|apply strip_stripped].
  intros Hin. apply chars_strip in Hin.
  exact (split_no_sep "," s p (last_Some_elem_of _ _ Hlast) Hin).
Qed.

Lemma extract_rocket_family_clean (detail : option string) (family : string) :
  extract_rocket_family detail = Some family →
  (BAR ∉ chars family) ∧ stripped family.
Proof.
  destruct detail as [s|]; [|discriminate].
  unfold extract_rocket_family, PyStr.first. simpl.
  destruct (head (PyStr.split "|" s)) as [p|] eqn:Hhead; [|discriminate].
  simpl. intros [= <-]. split; [|apply strip_stripped].
  intros Hin. apply chars_strip in Hin.
  exact (split_no_sep "|" s p (head_Some_elem_of _ _ Hhead) Hin).
Qed.

(** The names the mapping gives hold no comma and no outer white space. *)
Lemma country_mapping_clean (s name : string) :
  country_mapping !! s = Some name →
  (COMMA ∉ chars name) ∧ stripped name.
Proof.
  unfold country_mapping. intros H.
  repeat (apply lookup_insert_Some in H as [[_ <-]|[_ H]];
          [ split;
            [ apply (bool_decide_unpack _); vm_compute; exact I
            | apply stripped_fixed; vm_compute; reflexivity ]
          |]).
  rewrite lookup_empty in H. discriminate.
Qed.

Lemma canonical_country_Some (c : option string) (name : string) :
  canonical_country c = Some name →
  ∃ token, c = Some token
           ∧ (country_mapping !! token = Some name
              ∨ country_mapping !! token = None ∧ name = token).
Proof.
  destruct c as [token|]; [|discriminate].
  unfold canonical_country, series_map. simpl.
  destruct (country_mapping !! token) as [v|] eqn:Hv; simpl;
    intros [= <-]; exists token; split; auto.
Qed.

Lemma process_row
    (to_datetime : list (option string) → list (option Timestamp))
    (raw : list csv_row) (r : row) :
  r ∈ process to_datetime raw →
  location_name (base r) ∈ Location <$> raw
  ∧ country_full (base r)
    = canonical_country (extract_country (location_name (base r)))
  ∧ rocket_family (base r) = extract_rocket_family (rocket (base r)).
Proof.
  intros Hr. apply elem_of_process in Hr as (c & d & Hc & ->). simpl.
  split; [|split; reflexivity].
  apply list_elem_of_fmap. exists c. split; [reflexivity | exact Hc].
Qed.

(** X3. In every row of the cleaned table the country and the rocket
    family are missing exactly when the location and the rocket detail
    are; a rocket family holds no bar, a country no comma, and neither
    starts or ends with a white space character, ASCII or not. *)
Theorem cleaned_text_columns
    (to_datetime : list (option string) → list (option Timestamp))
    (raw : list csv_row) (r : row) :
  r ∈ process to_datetime raw →
  (country_full (base r) = None ↔ location_name (base r) = None)
  ∧ (rocket_family (base r) = None ↔ rocket (base r) = None)
  ∧ (∀ family, rocket_family (base r) = Some family →
               (BAR ∉ chars family) ∧ stripped family)
  ∧ (∀ country, country_full (base r) = Some country →
                (COMMA ∉ chars country) ∧ stripped country).
Proof.
  intros Hr. apply process_row in Hr as (_ & Hcountry & Hfamily).
  rewrite Hcountry, Hfamily. split; [|split; [|split]].
  - split.
    + intros H.
      destruct (extract_country (location_name (base r))) as [t|] eqn:Ht.
      * exfalso. revert H. unfold canonical_country, series_map. simpl.
        destruct (country_mapping !! t); discriminate.
      * apply extract_country_None, Ht.
    + intros H. rewrite H. reflexivity.
  - apply extract_rocket_family_None.
  - apply extract_rocket_family_clean.
  - intros country Hc.
    apply canonical_country_Some in Hc as (token & Htoken & [Hkey|[_ ->]]).
    + exact (country_mapping_clean _ _ Hkey).
    + exact (extract_country_clean _ _ Htoken).
Qed.

Lemma cleaned_text_columns_witness :
  ((country_full (base Sample.sputnik) = None
    ↔ location_name (base Sample.sputnik) = None)
   ∧ (rocket_family (base Sample.sputnik) = None
      ↔ rocket (base Sample.sputnik) = None)
   ∧ (∀ family, rocket_family (base Sample.sputnik) = Some family →
                (BAR ∉ chars family) ∧ stripped family)
   ∧ (∀ country, country_full (base Sample.sputnik) = Some country →
                 (COMMA ∉ chars country) ∧ stripped country))
  ∧ rocket (base Cases.crew_dragon)
    = Some (NBSP +:+ "Falcon 9 Block 5 | Crew Dragon")
  ∧ rocket_family (base Cases.crew_dragon) = Some "Falcon 9 Block 5"
  ∧ stripped "Falcon 9 Block 5".
Proof.
  split.
  - apply (cleaned_text_columns Sample.to_datetime Sample.launches).
    vm_compute. apply list_elem_of_here.
  - assert (Hin : Cases.crew_dragon
                  ∈ process Sample.to_datetime Cases.padded)
      by (vm_compute; apply list_elem_of_here).
    pose proof (cleaned_text_columns Sample.to_datetime Cases.padded
                  Cases.crew_dragon Hin) as (_ & _ & Hfamily & _).
    split; [reflexivity|]. split; [reflexivity|].
    exact (proj2 (Hfamily "Falcon 9 Block 5" eq_refl)).
Defined.

(** ** Canonical countries *)

Lemma canonical_country_fixed (c : option string) :
  canonical_country (canonical_country c) = canonical_country c.
Proof.
  destruct c as [s|]; [|reflexivity].
  assert (Hstep : ∀ t, canonical_country (Some t)
                       = match country_mapping !! t with
                         | Some v => Some v
                         | None => Some t
                         end).
  { intros t. unfold canonical_country, series_map. simpl.
    destruct (country_mapping !! t); reflexivity. }
  rewrite (Hstep s). destruct (country_mapping !! s) as [v|] eqn:Hs.
  - rewrite Hstep.
    destruct (country_mapping_values _ _ Hs) as [Hv|Hv]; rewrite Hv;
      reflexivity.
  - rewrite Hstep, Hs. reflexivity.
Qed.

(** X4. The country of a row of the cleaned table is a name the
    mapping leaves alone: mapping it again changes nothing, so no row
    is left under "USA" or "French Guiana".  When the location has a
    comma, it is the canonical name of what follows the last one, and
    the row is among the major powers exactly when that name is one of
    the three. *)
Theorem cleaned_countries_canonical
    (to_datetime : list (option string) → list (option Timestamp))
    (raw : list csv_row) (r : row) (site rest : string) :
  r ∈ process to_datetime raw →
  canonical_country (country_full (base r)) = country_full (base r)
  ∧ country_full (base r) ≠ Some "USA"
  ∧ country_full (base r) ≠ Some "French Guiana"
  ∧ (location_name (base r) = Some (site +:+ String "," rest) →
     COMMA ∉ chars rest →
     country_full (base r) = canonical_country (Some (PyStr.strip rest))
     ∧ (r ∈ df_powers (process to_datetime raw)
        ↔ canonical_country (Some (PyStr.strip rest))
          ∈ Some <$> major_powers)).
Proof.
  intros Hr. pose proof (process_row _ _ _ Hr) as (_ & Hcountry & _).
  assert (Hfix : canonical_country (country_full (base r))
                 = country_full (base r))
    by (rewrite Hcountry; apply canonical_country_fixed).
  split; [exact Hfix|]. split; [|split].
  - intros H. rewrite H in Hfix. vm_compute in Hfix. discriminate Hfix.
  - intros H. rewrite H in Hfix. vm_compute in Hfix. discriminate Hfix.
  - intros Hloc Hrest.
    assert (Hc : country_full (base r)
                 = canonical_country (Some (PyStr.strip rest))).
    { rewrite Hcountry, Hloc. f_equal. unfold extract_country. simpl.
      rewrite (final_split_app ","%char site rest Hrest). reflexivity. }
    split; [exact Hc|].
    unfold df_powers. rewrite list_elem_of_filter, Hc.
    destruct (canonical_country (Some (PyStr.strip rest))) as [name|];
      unfold isin.
    + rewrite bool_decide_eq_true, list_elem_of_fmap. split.
      * intros [Hin _]. exists name. split; [reflexivity | exact Hin].
      * intros (x & [= <-] & Hin). split; [exact Hin | exact Hr].
    + split; [intros [H _]; discriminate H|].
      intros (x & H & _)%list_elem_of_fmap. discriminate H.
Qed.

Lemma cleaned_countries_canonical_witness :
  (canonical_country (country_full (base Cases.vanguard))
   = country_full (base Cases.vanguard)
   ∧ country_full (base Cases.vanguard) = Some "United States"
   ∧ Cases.vanguard
     ∈ df_powers (process Sample.to_datetime Sample.launches))
  ∧ location_name (base Cases.crew_dragon)
    = Some ("LC-39A, Kennedy Space Center, Florida, USA" +:+ NBSP)
  ∧ country_full (base Cases.crew_dragon) = Some "United States"
  ∧ Cases.crew_dragon ∈ df_powers (process Sample.to_datetime Cases.padded).
Proof.
  split; [|split; [reflexivity|]].
  2: {
    assert (Hin : Cases.crew_dragon
                  ∈ process Sample.to_datetime Cases.padded)
      by (vm_compute; apply list_elem_of_here).
    pose proof (cleaned_countries_canonical Sample.to_datetime Cases.padded
                  Cases.crew_dragon "LC-39A, Kennedy Space Center, Florida"
                  (" USA" +:+ NBSP) Hin) as (_ & _ & _ & Hloc).
    destruct Hloc as [Hcountry Hpowers].
    - reflexivity.
    - apply (bool_decide_unpack _). vm_compute. exact I.
    - split; [exact Hcountry|].
      apply Hpowers. vm_compute. apply list_elem_of_here. }
  assert (Hin : Cases.vanguard ∈ process Sample.to_datetime Sample.launches)
    by (vm_compute; apply list_elem_of_further, list_elem_of_here).
  pose proof (cleaned_countries_canonical Sample.to_datetime Sample.launches
                Cases.vanguard "LC-18A, Cape Canaveral AFS, Florida" " USA"
                Hin) as (Hfix & _ & _ & Hloc).
  destruct Hloc as [Hcountry Hpowers].
  - reflexivity.
  - apply (bool_decide_unpack _). vm_compute. exact I.
  - split; [exact Hfix|]. split; [exact Hcountry|].
    apply Hpowers. vm_compute. apply list_elem_of_here.
Defined.

(** ** Groups and their sizes *)

Lemma sum_list_cons (n : nat) (l : list nat) :
  sum_list (n :: l) = n + sum_list l.
Proof. reflexivity. Qed.

Section Groups.

Context {K : Type} `{EqDecision K}.
Variable key : row → option K.

Lemma elem_of_Some_fmap (k : K) (ks : list K) :
  Some k ∈ Some <$> ks ↔ k ∈ ks.
Proof.
  rewrite list_elem_of_fmap. split.
  - intros (x & [= <-] & Hx). exact Hx.
  - intros Hk. exists k. split; [reflexivity | exact Hk].
Qed.

(** The weight of the rows under any of the keys [ks] is the sum of the
    weights of the groups of the keys. *)
Lemma weight_filter_cons (w : row → nat) (k : K) (ks : list K)
    (df : list row) :
  k ∉ ks →
  sum_list (w <$> filter (λ r, key r ∈ Some <$> k :: ks) df)
  = sum_list (w <$> filter (λ r, key r = Some k) df)
    + sum_list (w <$> filter (λ r, key r ∈ Some <$> ks) df).
Proof.
  intros Hk. rewrite (fmap_cons Some k ks).
  induction df as [|r df IH]; [reflexivity|].
  filter_step.
  destruct (decide (key r = Some k)) as [Hr|Hr];
    destruct (decide (key r ∈ Some <$> ks)) as [Hin|Hin];
    destruct (decide (key r ∈ Some k :: (Some <$> ks))) as [Hc|Hc];
    cbv iota; rewrite ?(fmap_cons w), ?sum_list_cons, ?IH; try lia; exfalso.
  - rewrite Hr in Hin. apply elem_of_Some_fmap in Hin. exact (Hk Hin).
  - rewrite Hr in Hin. apply elem_of_Some_fmap in Hin. exact (Hk Hin).
  - apply Hc. rewrite Hr. left.
  - apply Hc. right. exact Hin.
  - apply elem_of_cons in Hc as [Hc|Hc]; auto.
Qed.

Lemma weight_groups (w : row → nat) (ks : list K) (df : list row) :
  NoDup ks →
  sum_list ((λ k, sum_list (w <$> filter (λ r, key r = Some k) df)) <$> ks)
  = sum_list (w <$> filter (λ r, key r ∈ Some <$> ks) df).
Proof.
  induction 1 as [|k ks Hk Hnd IH].
  - simpl. induction df as [|r df IHdf]; [reflexivity|].
    filter_step. rewrite decide_False by apply not_elem_of_nil. exact IHdf.
  - rewrite weight_filter_cons by exact Hk. rewrite <- IH. reflexivity.
Qed.

(** Under all the keys of the table: the rows with a key. *)
Lemma filter_keyed (ks : list K) (df : list row) :
  (∀ k, k ∈ omap key df → k ∈ ks) →
  filter (λ r, key r ∈ Some <$> ks) df = filter (λ r, is_Some (key r)) df.
Proof.
  intros Hks. induction df as [|r df IH]; [reflexivity|].
  assert (Hdf : ∀ k, k ∈ omap key df → k ∈ ks).
  { intros k Hk. apply Hks. simpl. destruct (key r); [right|]; exact Hk. }
  filter_step. rewrite (IH Hdf).
  destruct (decide (key r ∈ Some <$> ks)) as [Hin|Hin];
    destruct (decide (is_Some (key r))) as [Hs|Hs]; try reflexivity; exfalso.
  - apply list_elem_of_fmap in Hin as (x & Hx & _). apply Hs. exists x.
    exact Hx.
  - destruct Hs as [k Hr]. apply Hin. rewrite Hr. apply elem_of_Some_fmap.
    apply Hks. simpl. rewrite Hr. left.
Qed.

Lemma sum_list_ones {A} (l : list A) : sum_list ((λ _, 1) <$> l) = length l.
Proof. rewrite sum_list_fmap_const. lia. Qed.

Lemma length_omap_filter (df : list row) :
  length (omap key df) = length (filter (λ r, is_Some (key r)) df).
Proof.
  induction df as [|r df IH]; [reflexivity|].
  filter_step. simpl.
  destruct (key r) as [k|] eqn:Hr; destruct (decide (is_Some _)) as [Hs|Hs];
    simpl; try (f_equal; exact IH); try exact IH; exfalso.
  - apply Hs. exists k. reflexivity.
  - destruct Hs as [x Hx]. discriminate Hx.
Qed.

End Groups.

(** ** Keys in ascending order *)

Lemma StronglySorted_le_lt (l : list Z) :
  StronglySorted Z.le l → NoDup l → StronglySorted Z.lt l.
Proof.
  induction 1 as [|x l Hs IH Hx]; intros Hnd; constructor.
  - apply IH. apply NoDup_cons in Hnd as [_ Hnd]. exact Hnd.
  - apply NoDup_cons in Hnd as [Hnot _].
    apply Forall_forall. intros y Hy.
    rewrite Forall_forall in Hx. specialize (Hx y Hy).
    assert (x ≠ y) by (intros ->; exact (Hnot Hy)). lia.
Qed.

Lemma sorted_keys (vals : list Z) :
  let ks := merge_sort Z.le (remove_dups vals) in
  StronglySorted Z.lt ks ∧ NoDup ks ∧ ∀ k, k ∈ ks ↔ k ∈ vals.
Proof.
  intros ks.
  assert (Hperm : ks ≡ₚ remove_dups vals) by apply merge_sort_Permutation.
  assert (Hnd : NoDup ks) by (rewrite Hperm; apply NoDup_remove_dups).
  split; [|split; [exact Hnd|]].
  - apply StronglySorted_le_lt; [|exact Hnd].
    apply StronglySorted_merge_sort; apply _.
  - intros k. rewrite Hperm. apply elem_of_remove_dups.
Qed.

Lemma length_filter_indicator {A} (P : A → Prop) `{∀ x, Decision (P x)}
    (l : list A) :
  length (filter P l) = sum_list ((λ _, 1) <$> filter P l).
Proof. rewrite sum_list_fmap_const. lia. Qed.

(** The sizes of the groups of a key add up to the number of rows that
    have a key. *)
Lemma group_sizes {K} `{EqDecision K} (key : row → option K) (ks : list K)
    (df : list row) :
  NoDup ks → (∀ k, k ∈ omap key df → k ∈ ks) →
  sum_list ((λ k, length (filter (λ r, key r = Some k) df)) <$> ks)
  = length (omap key df).
Proof.
  intros Hnd Hks.
  rewrite length_omap_filter, length_filter_indicator.
  rewrite <- (filter_keyed key ks df Hks).
  rewrite <- (weight_groups key (λ _, 1) ks df Hnd).
  f_equal. apply list_fmap_ext. intros _ k _.
  apply length_filter_indicator.
Qed.

Lemma fmap_fst_pair {A B} (f : A → B) (l : list A) :
  fst <$> ((λ k, (k, f k)) <$> l) = l.
Proof.
  induction l as [|a l IH]; [reflexivity|].
  rewrite !fmap_cons, IH. reflexivity.
Qed.

Lemma fmap_snd_pair {A B} (f : A → B) (l : list A) :
  snd <$> ((λ k, (k, f k)) <$> l) = f <$> l.
Proof.
  induction l as [|a l IH]; [reflexivity|].
  rewrite !fmap_cons, IH. reflexivity.
Qed.

(** X5. The table of launches per year lists each year of the table
    once, in ascending order, with the number of rows of that year,
    which is at least one; the numbers add up to the number of rows that
    have a year, hence to all the rows of a cleaned table. *)
Theorem missions_per_year_counts
    (to_datetime : list (option string) → list (option Timestamp))
    (raw : list csv_row) (df : DataFrame) :
  (StronglySorted Z.lt (fst <$> missions_per_year df)
   ∧ (∀ y n, (y, n) ∈ missions_per_year df ↔
             Some y ∈ year <$> df
             ∧ n = length (filter (λ r, year r = Some y) df))
   ∧ Forall (λ p, 1 ≤ p.2) (missions_per_year df)
   ∧ sum_list (snd <$> missions_per_year df) = length (omap year df))
  ∧ sum_list (snd <$> missions_per_year (process to_datetime raw))
    = total_missions (process to_datetime raw).
Proof.
  assert (Hgen : ∀ df : list row,
            StronglySorted Z.lt (fst <$> missions_per_year df)
            ∧ (∀ y n, (y, n) ∈ missions_per_year df ↔
                      Some y ∈ year <$> df
                      ∧ n = length (filter (λ r, year r = Some y) df))
            ∧ Forall (λ p, 1 ≤ p.2) (missions_per_year df)
            ∧ sum_list (snd <$> missions_per_year df) = length (omap year df)).
  { clear df. intros df. unfold missions_per_year.
    destruct (sorted_keys (omap year df)) as (Hsorted & Hnd & Hks).
    assert (Hyear : ∀ y, y ∈ omap year df ↔ Some y ∈ year <$> df).
    { intros y. rewrite list_elem_of_omap, list_elem_of_fmap. split.
      - intros (r & Hr & Hy). exists r. split; [symmetry; exact Hy | exact Hr].
      - intros (r & Hy & Hr). exists r. split; [exact Hr | symmetry; exact Hy]. }
    assert (Hent : ∀ y n,
              (y, n) ∈ (λ k, (k, length (filter (λ r, year r = Some k) df)))
                       <$> merge_sort Z.le (remove_dups (omap year df))
              ↔ Some y ∈ year <$> df
                ∧ n = length (filter (λ r, year r = Some y) df)).
    { intros y n. rewrite list_elem_of_fmap, <- Hyear. split.
      - intros (k & [= -> ->] & Hk). split; [apply Hks, Hk | reflexivity].
      - intros [Hy ->]. exists y. split; [reflexivity | apply Hks, Hy]. }
    split; [|split; [exact Hent|split]].
    - rewrite fmap_fst_pair. exact Hsorted.
    - apply Forall_forall. intros [y n] Hp. apply Hent in Hp as [Hy ->].
      simpl. apply list_elem_of_fmap in Hy as (r & Hy & Hr).
      assert (Hin : r ∈ filter (λ r, year r = Some y) df)
        by (apply list_elem_of_filter; split; [symmetry; exact Hy | exact Hr]).
      destruct (filter (λ r, year r = Some y) df); [|simpl; lia].
      apply elem_of_nil in Hin. contradiction.
    - rewrite fmap_snd_pair.
      apply (group_sizes year _ df Hnd). intros k Hk. apply Hks, Hk. }
  split; [apply Hgen|].
  destruct (Hgen (process to_datetime raw)) as (_ & _ & _ & ->).
  destruct (process_years_decades to_datetime raw) as [Hy _].
  unfold total_missions.
  assert (Hlen : ∀ l : list row, nonnull (year <$> l) →
                                 length (omap year l) = length l).
  { induction l as [|r l IH]; intros Hl; [reflexivity|].
    rewrite fmap_cons in Hl. apply Forall_cons in Hl as [[y Hr] Hl].
    simpl. rewrite Hr. simpl. f_equal. exact (IH Hl). }
  apply Hlen, Hy.
Qed.

(** ** Success by group *)

Lemma pct_bounds (s c : nat) :
  s ≤ c → 1 ≤ c → (0 <= (Q_of_nat s / Q_of_nat c) * 100 <= 100)%Q.
Proof.
  intros Hs Hc. destruct c as [|c]; [lia|].
  unfold Q_of_nat, Qdiv, Qmult, Qinv, Qle, inject_Z. simpl.
  split; lia.
Qed.

Lemma pct_times_count (s c : nat) :
  1 ≤ c →
  ((Q_of_nat s / Q_of_nat c) * 100 * Q_of_nat c == 100 * Q_of_nat s)%Q.
Proof.
  intros Hc. unfold Q_of_nat. field.
  intros H. unfold Qeq in H. simpl in H. lia.
Qed.

Lemma Q_of_nat_add (a b : nat) :
  (Q_of_nat (a + b) == Q_of_nat a + Q_of_nat b)%Q.
Proof. unfold Q_of_nat. rewrite Nat2Z.inj_add, inject_Z_plus. reflexivity. Qed.

Lemma length_filter_weight {A} (P : A → Prop) `{∀ x, Decision (P x)}
    (l : list A) :
  length (filter P l)
  = sum_list ((λ x, if decide (P x) then 1 else 0) <$> l).
Proof.
  induction l as [|x l IH]; [reflexivity|].
  filter_step. rewrite fmap_cons, sum_list_cons.
  destruct (decide (P x)); simpl; rewrite IH; reflexivity.
Qed.

Lemma successful_missions_le (df : list row) :
  successful_missions df ≤ length df.
Proof. unfold successful_missions. apply length_filter. Qed.

Section GroupBy.

Variable key : row → option Z.

Lemma groupby_success_spec (df : list row) :
  let groups := groupby_success key df in
  StronglySorted Z.lt (g_key <$> groups)
  ∧ (∀ g, g ∈ groups ↔
          Some (g_key g) ∈ key <$> df
          ∧ g_sum g
            = successful_missions (filter (λ r, key r = Some (g_key g)) df)
          ∧ g_count g = length (filter (λ r, key r = Some (g_key g)) df))
  ∧ Forall (λ g, 1 ≤ g_count g ∧ g_sum g ≤ g_count g) groups
  ∧ sum_list (g_count <$> groups) = length (omap key df)
  ∧ sum_list (g_sum <$> groups)
    = successful_missions (filter (λ r, is_Some (key r)) df).
Proof.
  intros groups. unfold groups, groupby_success. cbv zeta.
  destruct (sorted_keys (omap key df)) as (Hsorted & Hnd & Hks).
  set (ks := merge_sort Z.le (remove_dups (omap key df))) in *.
  assert (Hkey : ∀ k, k ∈ ks ↔ Some k ∈ key <$> df).
  { intros k. rewrite Hks, list_elem_of_omap, list_elem_of_fmap. split.
    - intros (r & Hr & Hk). exists r. split; [symmetry; exact Hk | exact Hr].
    - intros (r & Hk & Hr). exists r. split; [exact Hr | symmetry; exact Hk]. }
  assert (Hent : ∀ g,
            g ∈ (λ k, GroupStat k
                        (successful_missions (filter (λ r, key r = Some k) df))
                        (length (filter (λ r, key r = Some k) df))) <$> ks
            ↔ Some (g_key g) ∈ key <$> df
              ∧ g_sum g
                = successful_missions (filter (λ r, key r = Some (g_key g)) df)
              ∧ g_count g = length (filter (λ r, key r = Some (g_key g)) df)).
  { intros g. rewrite list_elem_of_fmap. split.
    - intros (k & -> & Hk). simpl. split; [apply Hkey, Hk|].
      split; reflexivity.
    - intros (Hk & Hs & Hc). exists (g_key g). split; [|apply Hkey, Hk].
      destruct g as [k s c]. simpl in *. subst s c. reflexivity. }
  split; [|split; [exact Hent|split; [|split]]].
  - rewrite <- list_fmap_compose.
    replace (g_key ∘ _ <$> ks) with ks; [exact Hsorted|].
    clear. induction ks as [|k ks IH]; [reflexivity|].
    rewrite fmap_cons, <- IH. reflexivity.
  - apply Forall_forall. intros g Hg. apply Hent in Hg as (Hk & -> & ->).
    split; [|apply successful_missions_le].
    apply list_elem_of_fmap in Hk as (r & Hk & Hr).
    assert (Hin : r ∈ filter (λ r, key r = Some (g_key g)) df)
      by (apply list_elem_of_filter; split; [symmetry; exact Hk | exact Hr]).
    destruct (filter (λ r, key r = Some (g_key g)) df); [|simpl; lia].
    apply elem_of_nil in Hin. contradiction.
  - rewrite <- list_fmap_compose.
    apply (group_sizes key ks df Hnd). intros k Hk. apply Hks, Hk.
  - rewrite <- list_fmap_compose. unfold successful_missions, DataFrame.
    rewrite (length_filter_weight (λ r, success r = true)).
    rewrite <- (filter_keyed key ks df) by (intros k Hk; apply Hks, Hk).
    rewrite <- (weight_groups key _ ks df Hnd).
    apply (f_equal sum_list), list_fmap_ext. intros _ k _. simpl.
    apply (length_filter_weight (λ r, success r = true)).
Qed.

End GroupBy.

(** X6. The success table of a grouping (by decade, by year) has one
    line per key of the table, in ascending order; a line counts the
    rows and the successes of its key, at least one row and no more
    successes than rows, so that its rate lies between 0 and 100; the
    counts add up to the rows that have a key and the sums to their
    successes. *)
Theorem success_groups (key : row → option Z) (df : DataFrame) :
  let groups := groupby_success key df in
  StronglySorted Z.lt (g_key <$> groups)
  ∧ (∀ g, g ∈ groups ↔
          Some (g_key g) ∈ key <$> df
          ∧ g_sum g
            = successful_missions (filter (λ r, key r = Some (g_key g)) df)
          ∧ g_count g = length (filter (λ r, key r = Some (g_key g)) df))
  ∧ Forall (λ g, 1 ≤ g_count g ∧ g_sum g ≤ g_count g
                 ∧ (0 <= rate g <= 100)%Q) groups
  ∧ sum_list (g_count <$> groups) = length (omap key df)
  ∧ sum_list (g_sum <$> groups)
    = successful_missions (filter (λ r, is_Some (key r)) df).
Proof.
  intros groups.
  destruct (groupby_success_spec key df) as (Hs & Hent & Hb & Hc & Hsum).
  split; [exact Hs|]. split; [exact Hent|]. split; [|split; assumption].
  eapply Forall_impl; [exact Hb|]. intros g [H1 H2].
  split; [exact H1|]. split; [exact H2|]. apply pct_bounds; assumption.
Qed.

(** X7. For a table with at least one row the overall success rate lies
    between 0 and 100; it is 0 exactly when no row is a success and 100
    exactly when every row is. *)
Theorem overall_success_rate (df : DataFrame) :
  0 < total_missions df →
  (0 <= success_rate df <= 100)%Q
  ∧ ((success_rate df == 0)%Q ↔ Forall (λ r, success r = false) df)
  ∧ ((success_rate df == 100)%Q ↔ Forall (λ r, success r = true) df).
Proof.
  unfold success_rate, total_missions, successful_missions, DataFrame in *.
  intros Hlen.
  pose proof (length_filter (λ r, success r = true) df) as Hle.
  assert (Hnone : length (filter (λ r, success r = true) df) = 0
                  ↔ Forall (λ r, success r = false) df).
  { rewrite length_zero_iff_nil. clear. induction df as [|r df IH].
    - split; [constructor | reflexivity].
    - filter_step. destruct (decide (success r = true)) as [Hr|Hr].
      + split; [discriminate|]. intros H. apply Forall_cons in H as [H _].
        congruence.
      + rewrite IH. rewrite Forall_cons.
        apply not_true_is_false in Hr. tauto. }
  assert (Hall : length (filter (λ r, success r = true) df) = length df
                 ↔ Forall (λ r, success r = true) df).
  { clear. induction df as [|r df IH].
    - split; [constructor | reflexivity].
    - pose proof (length_filter (λ r, success r = true) df) as Hle.
      filter_step. rewrite Forall_cons, <- IH.
      destruct (decide (success r = true)) as [Hr|Hr]; cbn [length].
      + split; [intros H; split; [exact Hr | lia] | intros [_ H]; lia].
      + split; [lia | intros [H _]; contradiction]. }
  split; [apply pct_bounds; [exact Hle | exact Hlen]|].
  rewrite <- Hnone, <- Hall.
  destruct (length df) as [|c]; [lia|]. clear.
  generalize (length (filter (λ r, success r = true) df)) as s. intros s.
  unfold Q_of_nat, Qdiv, Qmult, Qinv, Qeq, inject_Z. simpl.
  rewrite ?Pos.mul_1_r, ?Zpos_P_of_succ_nat.
  split; split; lia.
Qed.

Lemma overall_success_rate_witness :
  let df := process Sample.to_datetime Sample.launches in
  (0 <= success_rate df <= 100)%Q
  ∧ ((success_rate df == 0)%Q ↔ Forall (λ r, success r = false) df)
  ∧ ((success_rate df == 100)%Q ↔ Forall (λ r, success r = true) df).
Proof.
  intros df. apply (overall_success_rate df). vm_compute. lia.
Defined.

Lemma weighted_rates (groups : list group_stat) :
  Forall (λ g, 1 ≤ g_count g) groups →
  (Qsum ((λ g, rate g * Q_of_nat (g_count g)) <$> groups)
   == 100 * Q_of_nat (sum_list (g_sum <$> groups)))%Q.
Proof.
  induction 1 as [|g groups Hg _ IH].
  - reflexivity.
  - rewrite !fmap_cons, sum_list_cons, Q_of_nat_add. unfold Qsum in *.
    cbn [foldr]. rewrite IH. unfold rate.
    rewrite (pct_times_count _ _ Hg). ring.
Qed.

Lemma filter_nonnull {K} (key : row → option K) (df : list row) :
  nonnull (key <$> df) → filter (λ r, is_Some (key r)) df = df.
Proof.
  induction df as [|r df IH]; intros Hnn; [reflexivity|].
  rewrite fmap_cons in Hnn. apply Forall_cons in Hnn as [Hr Hnn].
  rewrite filter_cons_True by exact Hr. rewrite (IH Hnn). reflexivity.
Qed.

(** X8. For a table with at least one row and no missing key, the
    overall success rate is the mean of the rates of the groups weighted
    by their sizes: the weighted rates add up to the overall rate times
    the number of rows. *)
Theorem overall_rate_weighted (key : row → option Z) (df : DataFrame) :
  0 < total_missions df →
  nonnull (key <$> df) →
  (Qsum ((λ g, rate g * Q_of_nat (g_count g)) <$> groupby_success key df)
   == success_rate df * Q_of_nat (total_missions df))%Q.
Proof.
  intros Hlen Hnn.
  destruct (groupby_success_spec key df) as (_ & _ & Hb & _ & Hsum).
  rewrite weighted_rates
    by (eapply Forall_impl; [exact Hb|]; intros g [H1 _]; exact H1).
  rewrite Hsum, (filter_nonnull key df Hnn).
  unfold success_rate. rewrite (pct_times_count _ _ Hlen). reflexivity.
Qed.

Lemma overall_rate_weighted_witness :
  let df := process Sample.to_datetime Sample.launches in
  (Qsum ((λ g, rate g * Q_of_nat (g_count g)) <$> success_by_decade df)
   == success_rate df * Q_of_nat (total_missions df))%Q.
Proof.
  intros df. apply (overall_rate_weighted decade df).
  - vm_compute. lia.
  - vm_compute. repeat econstructor.
Defined.

(** ** The trend and the decade table *)

Lemma omap_id_fmap {A B} (f : A → option B) (l : list A) :
  omap id (f <$> l) = omap f l.
Proof.
  induction l as [|x l IH]; [reflexivity|].
  simpl. destruct (f x); simpl; [f_equal|]; exact IH.
Qed.

Lemma foldr_max_spec (x : Z) (xs : list Z) :
  foldr Z.max x xs ∈ x :: xs ∧ ∀ v, v ∈ x :: xs → (v ≤ foldr Z.max x xs)%Z.
Proof.
  induction xs as [|y xs [Hin Hle]]; simpl.
  - split; [left|]. intros v Hv%list_elem_of_singleton. lia.
  - split.
    + destruct (Z.max_spec y (foldr Z.max x xs)) as [[_ ->]|[_ ->]].
      * apply elem_of_cons in Hin as [->|Hin]; [left | right; right; exact Hin].
      * right. left.
    + intros v Hv. apply elem_of_cons in Hv as [->|Hv].
      * specialize (Hle x (list_elem_of_here _ _)). lia.
      * apply elem_of_cons in Hv as [->|Hv]; [lia|].
        specialize (Hle v (list_elem_of_further _ _ _ Hv)). lia.
Qed.

Lemma foldr_min_spec (x : Z) (xs : list Z) :
  foldr Z.min x xs ∈ x :: xs ∧ ∀ v, v ∈ x :: xs → (foldr Z.min x xs ≤ v)%Z.
Proof.
  induction xs as [|y xs [Hin Hle]]; simpl.
  - split; [left|]. intros v Hv%list_elem_of_singleton. lia.
  - split.
    + destruct (Z.min_spec y (foldr Z.min x xs)) as [[_ ->]|[_ ->]].
      * right. left.
      * apply elem_of_cons in Hin as [->|Hin]; [left | right; right; exact Hin].
    + intros v Hv. apply elem_of_cons in Hv as [->|Hv].
      * specialize (Hle x (list_elem_of_here _ _)). lia.
      * apply elem_of_cons in Hv as [->|Hv]; [lia|].
        specialize (Hle v (list_elem_of_further _ _ _ Hv)). lia.
Qed.

Lemma col_max_Some (col : list (option Z)) (mx : Z) :
  col_max col = Some mx →
  mx ∈ omap id col ∧ ∀ v, v ∈ omap id col → (v ≤ mx)%Z.
Proof.
  unfold col_max. destruct (omap id col) as [|x xs]; [discriminate|].
  intros [= <-]. apply foldr_max_spec.
Qed.

Lemma col_min_Some (col : list (option Z)) (mn : Z) :
  col_min col = Some mn →
  mn ∈ omap id col ∧ ∀ v, v ∈ omap id col → (mn ≤ v)%Z.
Proof.
  unfold col_min. destruct (omap id col) as [|x xs]; [discriminate|].
  intros [= <-]. apply foldr_min_spec.
Qed.

Lemma sorted_last (ks : list Z) (mx : Z) :
  StronglySorted Z.lt ks → mx ∈ ks → (∀ k, k ∈ ks → (k ≤ mx)%Z) →
  last ks = Some mx.
Proof.
  induction 1 as [|x l Hs IH Hx]; intros Hin Hle.
  - apply elem_of_nil in Hin. contradiction.
  - destruct l as [|y l].
    + apply list_elem_of_singleton in Hin. subst. reflexivity.
    + change (last (x :: y :: l)) with (last (y :: l)).
      apply IH.
      * apply elem_of_cons in Hin as [->|Hin]; [|exact Hin].
        apply Forall_cons in Hx as [Hy _].
        specialize (Hle y (list_elem_of_further _ _ _ (list_elem_of_here _ _))).
        lia.
      * intros k Hk. apply Hle. right. exact Hk.
Qed.

Lemma sorted_head (ks : list Z) (mn : Z) :
  StronglySorted Z.lt ks → mn ∈ ks → (∀ k, k ∈ ks → (mn ≤ k)%Z) →
  head ks = Some mn.
Proof.
  destruct 1 as [|x l Hs Hx]; intros Hin Hle.
  - apply elem_of_nil in Hin. contradiction.
  - simpl. f_equal. apply elem_of_cons in Hin as [->|Hin]; [reflexivity|].
    rewrite Forall_forall in Hx. specialize (Hx mn Hin).
    specialize (Hle x (list_elem_of_here _ _)). lia.
Qed.

Lemma cell_eqb_Some (c : option Z) (k : Z) :
  cell_eqb c (Some k) = true ↔ c = Some k.
Proof.
  destruct c as [x|]; simpl; [|split; discriminate].
  rewrite Z.eqb_eq. split; [intros -> | intros [= ->]]; reflexivity.
Qed.

(** The rate of the rows of one decade, as the summary takes it, is the
    rate of the line of that decade in the decade table. *)
Lemma success_pct_group (df : list row) (k : Z) :
  Some k ∈ decade <$> df →
  success_pct (filter (λ r, cell_eqb (decade r) (Some k) = true) df)
  = rate (GroupStat k
            (successful_missions (filter (λ r, decade r = Some k) df))
            (length (filter (λ r, decade r = Some k) df))).
Proof.
  intros Hk.
  rewrite (list_filter_iff _ (λ r, decade r = Some k))
    by (intros r; apply cell_eqb_Some).
  unfold success_pct, rate. simpl.
  rewrite bool_decide_eq_true_2; [reflexivity|].
  apply list_elem_of_fmap in Hk as (r & Hk & Hr).
  assert (Hin : r ∈ filter (λ r, decade r = Some k) df)
    by (apply list_elem_of_filter; split; [symmetry; exact Hk | exact Hr]).
  destruct (filter (λ r, decade r = Some k) df); [|simpl; lia].
  apply elem_of_nil in Hin. contradiction.
Qed.

(** X9. The two rates the summary compares are those of the first and
    the last line of the decade table: the earliest and the latest
    decade of the table.  A table without any decade has an empty decade
    table, both rates are 0 and the trend reads "DECLINED". *)
Theorem trend_reads_decade_table (df : DataFrame) :
  (∀ mn mx,
     col_min (decade <$> df) = Some mn →
     col_max (decade <$> df) = Some mx →
     ∃ g_old g_new,
       head (success_by_decade df) = Some g_old
       ∧ last (success_by_decade df) = Some g_new
       ∧ g_key g_old = mn ∧ g_key g_new = mx
       ∧ old_success df = rate g_old
       ∧ recent_success df = rate g_new)
  ∧ (col_max (decade <$> df) = None →
     success_by_decade df = []
     ∧ old_success df = 0%Q ∧ recent_success df = 0%Q
     ∧ trend_text df = "DECLINED").
Proof.
  unfold DataFrame in *.
  destruct (sorted_keys (omap decade df)) as (Hsorted & _ & Hks).
  split.
  - intros mn mx Hmn Hmx.
    apply col_min_Some in Hmn as [Hmn_in Hmn_le].
    apply col_max_Some in Hmx as [Hmx_in Hmx_le].
    rewrite omap_id_fmap in Hmn_in, Hmn_le, Hmx_in, Hmx_le.
    set (F := λ k, GroupStat k
                     (successful_missions (filter (λ r, decade r = Some k) df))
                     (length (filter (λ r, decade r = Some k) df))).
    assert (Hdec : ∀ k, k ∈ omap decade df → Some k ∈ decade <$> df).
    { intros k (r & Hr & Hk)%list_elem_of_omap. apply list_elem_of_fmap.
      exists r. split; [symmetry; exact Hk | exact Hr]. }
    exists (F mn), (F mx).
    unfold success_by_decade, groupby_success. cbv zeta. fold F.
    rewrite fmap_last.
    rewrite (sorted_last _ mx Hsorted)
      by (try apply Hks; try exact Hmx_in; intros k Hk; apply Hmx_le, Hks, Hk).
    assert (Hhead : head (F <$> merge_sort Z.le (remove_dups (omap decade df)))
                    = Some (F mn)).
    { pose proof (sorted_head _ mn Hsorted (proj2 (Hks mn) Hmn_in)
                    (λ k Hk, Hmn_le k (proj1 (Hks k) Hk))) as Hh.
      destruct (merge_sort Z.le (remove_dups (omap decade df)));
        [discriminate Hh|]. injection Hh as ->. reflexivity. }
    split; [exact Hhead|]. split; [reflexivity|].
    split; [reflexivity|]. split; [reflexivity|].
    unfold old_success, recent_success, old_decade, recent_decade.
    assert (Hcmin : col_min (decade <$> df) = Some mn).
    { unfold col_min. rewrite omap_id_fmap.
      destruct (omap decade df) as [|x xs] eqn:Hom;
        [apply elem_of_nil in Hmn_in; contradiction|].
      f_equal. destruct (foldr_min_spec x xs) as [Hin Hle].
      specialize (Hle mn Hmn_in). specialize (Hmn_le _ Hin). lia. }
    assert (Hcmax : col_max (decade <$> df) = Some mx).
    { unfold col_max. rewrite omap_id_fmap.
      destruct (omap decade df) as [|x xs] eqn:Hom;
        [apply elem_of_nil in Hmx_in; contradiction|].
      f_equal. destruct (foldr_max_spec x xs) as [Hin Hle].
      specialize (Hle mx Hmx_in). specialize (Hmx_le _ Hin). lia. }
    rewrite Hcmin, Hcmax.
    split; apply success_pct_group; apply Hdec; assumption.
  - intros Hnone.
    assert (Hom : omap decade df = []).
    { unfold col_max in Hnone. rewrite omap_id_fmap in Hnone.
      destruct (omap decade df); [reflexivity | discriminate Hnone]. }
    assert (Hmin : col_min (decade <$> df) = None)
      by (unfold col_min; rewrite omap_id_fmap, Hom; reflexivity).
    assert (Hempty : filter (λ r, cell_eqb (decade r) None = true) df = []).
    { clear. induction df as [|r df IH]; [reflexivity|].
      rewrite filter_cons_False; [exact IH|].
      destruct (decade r); discriminate. }
    split.
    + unfold success_by_decade, groupby_success. rewrite Hom. reflexivity.
    + unfold trend_text, old_success, recent_success, old_decade,
        recent_decade, DataFrame.
      rewrite Hnone, Hmin, Hempty. repeat split; reflexivity.
Qed.

Lemma trend_reads_decade_table_witness :
  let df := process Sample.to_datetime Sample.level in
  (∃ g_old g_new,
      head (success_by_decade df) = Some g_old
      ∧ last (success_by_decade df) = Some g_new
      ∧ g_key g_old = 1950%Z ∧ g_key g_new = 2020%Z
      ∧ old_success df = rate g_old
      ∧ recent_success df = rate g_new)
  ∧ trend_text (process Sample.to_datetime []) = "DECLINED".
Proof.
  intros df.
  pose proof (trend_reads_decade_table df) as [Hsome _].
  pose proof (trend_reads_decade_table (process Sample.to_datetime []))
    as [_ Hnone].
  split.
  - apply Hsome; vm_compute; reflexivity.
  - apply Hnone. vm_compute. reflexivity.
Defined.

(** ** The peak year *)

Lemma argmax_from_spec {A} (l : list (A * nat)) :
  ∀ best, ∃ pre post,
    best :: l = pre ++ argmax_from best l :: post
    ∧ Forall (λ x, x.2 < (argmax_from best l).2) pre
    ∧ Forall (λ x, x.2 ≤ (argmax_from best l).2) post.
Proof.
  induction l as [|x l IH]; intros best; simpl.
  - exists [], []. repeat split; constructor.
  - destruct (best.2 <? x.2) eqn:Hlt.
    + apply Nat.ltb_lt in Hlt.
      destruct (IH x) as (pre & post & Heq & Hpre & Hpost).
      remember (argmax_from x l) as m.
      exists (best :: pre), post. split; [rewrite Heq; reflexivity|].
      split; [|exact Hpost]. constructor; [|exact Hpre].
      destruct pre as [|p pre].
      * injection Heq as <- _. exact Hlt.
      * injection Heq as <- _. apply Forall_cons in Hpre as [Hp _]. lia.
    + apply Nat.ltb_ge in Hlt.
      destruct (IH best) as (pre & post & Heq & Hpre & Hpost).
      remember (argmax_from best l) as m.
      destruct pre as [|p pre].
      * injection Heq as Hb Hl. exists [], (x :: post).
        split; [rewrite <- Hb, Hl; reflexivity|].
        split; [constructor|]. constructor; [|exact Hpost].
        rewrite <- Hb. exact Hlt.
      * injection Heq as Hb Hl. subst p. exists (best :: x :: pre), post.
        split; [rewrite Hl; reflexivity|]. split; [|exact Hpost].
        apply Forall_cons in Hpre as [Hb Hpre].
        constructor; [exact Hb|]. constructor; [lia | exact Hpre].
Qed.

(** X10. The peak year is a year of the table whose number of launches
    no other year exceeds, and the earliest of the years that reach that
    number; there is none ([idxmax] raises) exactly when no row has a
    year. *)
Theorem peak_year_first_maximum (df : DataFrame) :
  (peak_year df = None ↔ omap year df = [])
  ∧ (∀ y, peak_year df = Some y →
          ∃ n, (y, n) ∈ missions_per_year df
               ∧ ∀ y' n', (y', n') ∈ missions_per_year df →
                          n' ≤ n ∧ (n' = n → (y ≤ y')%Z)).
Proof.
  unfold peak_year, idxmax.
  destruct (sorted_keys (omap year df)) as (Hsorted & _ & Hks).
  assert (Hfst : fst <$> missions_per_year df
                 = merge_sort Z.le (remove_dups (omap year df)))
    by apply fmap_fst_pair.
  split.
  - destruct (missions_per_year df) as [|p mpy] eqn:Hm.
    + split; [intros _|reflexivity].
      destruct (omap year df) as [|x xs]; [reflexivity|].
      pose proof (proj2 (Hks x) (list_elem_of_here _ _)) as Hx.
      rewrite <- Hfst in Hx. apply elem_of_nil in Hx. contradiction.
    + split; [discriminate|]. intros Hom. rewrite Hom in Hfst.
      discriminate Hfst.
  - intros y Hy. destruct (missions_per_year df) as [|p mpy]; [discriminate|].
    injection Hy as <-.
    destruct (argmax_from_spec mpy p) as (pre & post & Heq & Hpre & Hpost).
    rewrite Heq in Hfst |- *. rewrite <- Hfst in Hsorted.
    destruct (argmax_from p mpy) as [y n]. simpl in *.
    exists n. split; [apply elem_of_app; right; left|].
    intros y' n' Hin. rewrite fmap_app, fmap_cons in Hsorted. simpl in Hsorted.
    apply elem_of_app in Hin as [Hin|Hin].
    + rewrite Forall_forall in Hpre. specialize (Hpre _ Hin). simpl in Hpre.
      split; lia.
    + apply elem_of_cons in Hin as [[= -> ->]|Hin]; [split; lia|].
      rewrite Forall_forall in Hpost. pose proof (Hpost _ Hin) as Hle.
      simpl in Hle. split; [exact Hle|]. intros _.
      apply StronglySorted_app_1_r, StronglySorted_cons in Hsorted
        as [Hgt _].
      rewrite Forall_forall in Hgt.
      assert (y' ∈ fst <$> post)
        by (apply list_elem_of_fmap; exists (y', n'); split;
            [reflexivity | exact Hin]).
      specialize (Hgt y' H). lia.
Qed.

Lemma peak_year_first_maximum_witness :
  let df := process Sample.to_datetime Sample.launches in
  peak_year df = Some 1957%Z
  ∧ ∃ n, (1957%Z, n) ∈ missions_per_year df
         ∧ ∀ y' n', (y', n') ∈ missions_per_year df →
                    n' ≤ n ∧ (n' = n → (1957 ≤ y')%Z).
Proof.
  intros df.
  pose proof (peak_year_first_maximum df) as [_ Hpeak].
  assert (H : peak_year df = Some 1957%Z) by (vm_compute; reflexivity).
  exact (conj H (Hpeak _ H)).
Defined.

(** ** The recent trend *)

Lemma mean_count_Some (l : list nat) :
  l ≠ [] → ∃ q, mean_count l = Some q.
Proof. destruct l; [congruence | eexists; reflexivity]. Qed.

(** X11. With five years or fewer in the table the recent trend is
    always "stable": the earlier window is empty, its mean is NaN and
    the comparison is false.  With more years, the last five counts are
    compared with the up to five counts before them, and the trend is
    "increasing" exactly when the mean of the last five is strictly
    larger. *)
Theorem recent_trend_windows (df : DataFrame) :
  let missions := snd <$> missions_per_year df in
  (length missions ≤ 5 → recent_trend df = "stable")
  ∧ (5 < length missions →
     length (iloc_last 5 missions) = 5
     ∧ length (iloc_between 10 5 missions) = 5 `min` (length missions - 5)
     ∧ iloc_between 10 5 missions ++ iloc_last 5 missions
       = iloc_last 10 missions
     ∧ ∃ a b, mean_count (iloc_last 5 missions) = Some a
              ∧ mean_count (iloc_between 10 5 missions) = Some b
              ∧ (recent_trend df = "increasing" ↔ (b < a)%Q)).
Proof.
  intros missions. unfold recent_trend. fold missions. cbv zeta.
  generalize missions as l. clear. intros l. split.
  - intros Hlen.
    assert (Hb : iloc_between 10 5 l = []).
    { unfold iloc_between. cbv zeta.
      replace (length l - 5 - (length l - 10)) with 0 by lia. reflexivity. }
    rewrite Hb. destruct (mean_count (iloc_last 5 l)); reflexivity.
  - intros Hlen.
    assert (Hl5 : length (iloc_last 5 l) = 5)
      by (unfold iloc_last; rewrite length_drop; lia).
    assert (Hb5 : length (iloc_between 10 5 l) = 5 `min` (length l - 5))
      by (unfold iloc_between; cbv zeta; rewrite length_take, length_drop;
          lia).
    split; [exact Hl5|]. split; [exact Hb5|]. split.
    + unfold iloc_between, iloc_last. cbv zeta.
      transitivity (take (length l - 5 - (length l - 10))
                         (drop (length l - 10) l)
                    ++ drop (length l - 5 - (length l - 10))
                         (drop (length l - 10) l)); [|apply take_drop].
      f_equal. rewrite drop_drop. f_equal. lia.
    + destruct (mean_count_Some (iloc_last 5 l)) as [a Ha].
      { intros H. rewrite H in Hl5. discriminate Hl5. }
      destruct (mean_count_Some (iloc_between 10 5 l)) as [b Hb].
      { intros H. apply (f_equal length) in H. rewrite Hb5 in H.
        change (length []) with 0 in H. lia. }
      exists a, b. rewrite Ha, Hb. split; [reflexivity|].
      split; [reflexivity|]. simpl. rewrite <- Qgtb_true.
      destruct (Qgtb a b); split; intros H; try reflexivity; discriminate.
Qed.

Lemma recent_trend_windows_witness :
  recent_trend (process Sample.to_datetime Sample.launches) = "stable"
  ∧ ∃ a b,
      mean_count (iloc_last 5 (snd <$> missions_per_year
                                 (process Sample.to_datetime Sample.six_years)))
      = Some a
      ∧ mean_count (iloc_between 10 5
                      (snd <$> missions_per_year
                         (process Sample.to_datetime Sample.six_years)))
        = Some b
      ∧ (recent_trend (process Sample.to_datetime Sample.six_years)
         = "increasing" ↔ (b < a)%Q).
Proof.
  pose proof (recent_trend_windows
                (process Sample.to_datetime Sample.launches)) as [Hfew _].
  pose proof (recent_trend_windows
                (process Sample.to_datetime Sample.six_years)) as [_ Hmany].
  split.
  - apply Hfew. vm_compute. lia.
  - destruct Hmany as (_ & _ & _ & H); [vm_compute; lia | exact H].
Defined.

(** ** Commercial spaceflight *)

Lemma prefix_spec (n s : string) :
  String.prefix n s = true ↔ ∃ b, s = n +:+ b.
Proof.
  revert s. induction n as [|c n IH]; intros s; simpl.
  - split; [intros _; exists s; reflexivity | intros _; destruct s; reflexivity].
  - destruct s as [|d s]; simpl.
    + split; [discriminate | intros [b Hb]; discriminate Hb].
    + destruct (ascii_dec c d) as [->|Hne].
      * rewrite IH. split; intros [b Hb]; exists b; [rewrite Hb|];
          [reflexivity | injection Hb as ->; reflexivity].
      * split; [discriminate|]. intros [b Hb]. injection Hb as Hc _.
        congruence.
Qed.

Lemma str_contains_spec (n s : string) :
  str_contains n s = true ↔ ∃ a b, s = a +:+ n +:+ b.
Proof.
  induction s as [|c s IH].
  - destruct n as [|d n]; simpl; split.
    + intros _. exists EmptyString, EmptyString. reflexivity.
    + intros _. reflexivity.
    + discriminate.
    + intros (a & b & Hab). destruct a; discriminate Hab.
  - change (str_contains n (String c s))
      with (String.prefix n (String c s) || str_contains n s).
    rewrite orb_true_iff, IH, prefix_spec. split.
    + intros [[b Hb]|(a & b & Hab)].
      * exists EmptyString, b. exact Hb.
      * exists (String c a), b. simpl. rewrite Hab. reflexivity.
    + intros (a & b & Hab). destruct a as [|d a]; simpl in Hab.
      * left. exists b. exact Hab.
      * right. injection Hab as _ ->. exists a, b. reflexivity.
Qed.

Lemma iloc_last_app {A} (n : nat) (older recent : list A) :
  n ≤ length recent →
  iloc_last n (older ++ recent) = iloc_last n recent.
Proof.
  intros Hn. unfold iloc_last. rewrite length_app, drop_app_ge by lia.
  f_equal. lia.
Qed.

(** X12. Commercial spaceflight is "emerging" exactly when one of the
    last 200 rows of the table has an agency whose name holds "SpaceX";
    a missing agency counts as the text "nan".  Rows before the last 200
    never matter. *)
Theorem spaceflight_status_recent (df older : DataFrame) :
  (spaceflight_status df = "emerging" ↔
   ∃ r a b, r ∈ iloc_last 200 df
            ∧ py_str (agency (base r)) = a +:+ "SpaceX" +:+ b)
  ∧ (spaceflight_status df = "emerging"
     ∨ spaceflight_status df = "growing")
  ∧ (200 ≤ length df →
     spaceflight_status (older ++ df) = spaceflight_status df).
Proof.
  unfold DataFrame in *.
  assert (Hlast : ∀ l : list row,
            iloc_last 200 ((agency ∘ base) <$> l)
            = (agency ∘ base) <$> iloc_last 200 l).
  { intros l. unfold iloc_last. rewrite length_fmap, fmap_drop. reflexivity. }
  split; [|split].
  - unfold spaceflight_status. rewrite Hlast.
    destruct (existsb _ _) eqn:Hex.
    + split; [intros _|reflexivity].
      apply existsb_exists in Hex as (x & Hx & Hc).
      apply list_elem_of_In, list_elem_of_fmap in Hx as (r & -> & Hr).
      apply str_contains_spec in Hc as (a & b & Hab).
      exists r, a, b. split; [exact Hr | exact Hab].
    + split; [discriminate|]. intros (r & a & b & Hr & Hab). exfalso.
      apply not_true_iff_false in Hex. apply Hex, existsb_exists.
      exists (agency (base r)). split.
      * apply list_elem_of_In, list_elem_of_fmap. exists r.
        split; [reflexivity | exact Hr].
      * apply str_contains_spec. exists a, b. exact Hab.
  - unfold spaceflight_status. destruct (existsb _ _); auto.
  - intros Hlen. unfold spaceflight_status.
    rewrite !Hlast, iloc_last_app by exact Hlen. reflexivity.
Qed.

Lemma spaceflight_status_recent_witness :
  let df := process Sample.to_datetime Sample.launches in
  spaceflight_status df = "emerging"
  ∧ spaceflight_status
      (process Sample.to_datetime Sample.six_years ++ replicate 200 Sample.sputnik)
    = spaceflight_status (replicate 200 Sample.sputnik).
Proof.
  intros df.
  pose proof (spaceflight_status_recent df []) as [Hiff _].
  pose proof (spaceflight_status_recent (replicate 200 Sample.sputnik)
                (process Sample.to_datetime Sample.six_years))
    as (_ & _ & Hold).
  split.
  - apply Hiff. exists (default Sample.sputnik (last df)), EmptyString, EmptyString.
    split; [|reflexivity]. vm_compute.
    apply list_elem_of_further, list_elem_of_further, list_elem_of_here.
  - apply Hold. rewrite length_replicate. lia.
Defined.

(** ** Seasonal counts *)

Lemma value_counts_keys (col : list (option string)) :
  NoDup (fst <$> value_counts col).
Proof.
  rewrite (fmap_Permutation fst _ _ (value_counts_Permutation col)).
  rewrite fmap_fst_pair. apply NoDup_remove_dups.
Qed.

Lemma length_filter_fmap_eq {K} `{EqDecision K} (key : row → option K)
    (df : list row) (k : K) :
  length (filter (Some k =.) (key <$> df))
  = length (filter (λ r, key r = Some k) df).
Proof.
  induction df as [|r df IH]; [reflexivity|].
  rewrite fmap_cons. filter_step.
  destruct (decide (Some k = key r)); destruct (decide (key r = Some k));
    cbn [length]; congruence.
Qed.

Lemma filter_nonempty {A} (P : A → Prop) `{∀ x, Decision (P x)}
    (l : list A) (x : A) :
  x ∈ l → P x → 1 ≤ length (filter P l).
Proof.
  intros Hx Hp.
  assert (Hin : x ∈ filter P l) by (apply list_elem_of_filter; auto).
  destruct (filter P l); [|simpl; lia].
  apply elem_of_nil in Hin. contradiction.
Qed.

Lemma filter_empty {A} (P : A → Prop) `{∀ x, Decision (P x)} (l : list A) :
  length (filter P l) = 0 → ∀ x, x ∈ l → ¬ P x.
Proof.
  intros Hlen x Hx Hp. pose proof (filter_nonempty P l x Hx Hp). lia.
Qed.

(** The counts of a column laid out along a list of labels. *)
Lemma reindex_value_counts (key : row → option string) (df : list row)
    (labels : list string) (l : string) (o : option nat) :
  (l, o) ∈ reindex (value_counts (key <$> df)) labels →
  l ∈ labels
  ∧ (length (filter (λ r, key r = Some l) df) = 0 ∧ o = None
     ∨ 0 < length (filter (λ r, key r = Some l) df)
       ∧ o = Some (length (filter (λ r, key r = Some l) df))).
Proof.
  unfold reindex. intros (l' & [= <- ->] & Hl)%list_elem_of_fmap.
  split; [exact Hl|].
  pose proof (value_counts_keys (key <$> df)) as Hnd.
  destruct (length (filter (λ r, key r = Some l) df)) as [|n] eqn:Hlen.
  - left. split; [reflexivity|].
    apply not_elem_of_list_to_map.
    intros ([k c] & Hk & Hin)%list_elem_of_fmap. simpl in Hk. subst k.
    apply value_counts_entries in Hin as [Hin _].
    apply list_elem_of_fmap in Hin as (r & Hr & Hdf).
    exact (filter_empty _ df Hlen r Hdf (eq_sym Hr)).
  - right. split; [lia|].
    apply elem_of_list_to_map; [exact Hnd|].
    apply value_counts_entries. rewrite length_filter_fmap_eq, Hlen.
    split; [|reflexivity].
    destruct (filter (λ r, key r = Some l) df) as [|r rs] eqn:Hf;
      [discriminate Hlen|].
    assert (Hr : r ∈ filter (λ r, key r = Some l) df)
      by (rewrite Hf; left).
    apply list_elem_of_filter in Hr as [Hk Hr].
    apply list_elem_of_fmap. exists r. split; [symmetry; exact Hk | exact Hr].
Qed.

(** X13. The launches by month are always twelve entries in calendar
    order, and those by day of the week seven entries from Monday to
    Sunday; an entry is the number of rows of its month (day), and NaN,
    not zero, when there is none. *)
Theorem seasonal_counts (df : DataFrame) :
  fst <$> month_counts df = month_order
  ∧ fst <$> day_counts df = day_order
  ∧ (∀ m o, (m, o) ∈ month_counts df →
            let n := length (filter (λ r, month_name r = Some m) df) in
            n = 0 ∧ o = None ∨ 0 < n ∧ o = Some n)
  ∧ (∀ d o, (d, o) ∈ day_counts df →
            let n := length (filter (λ r, day_of_week r = Some d) df) in
            n = 0 ∧ o = None ∨ 0 < n ∧ o = Some n).
Proof.
  unfold month_counts, day_counts.
  split; [apply fmap_fst_pair|]. split; [apply fmap_fst_pair|].
  split; intros l o Hin; cbv zeta;
    apply reindex_value_counts in Hin as [_ H]; exact H.
Qed.

Example launches_by_month :
  month_counts (process Sample.to_datetime Sample.launches)
  = [("January", None); ("February", None); ("March", None); ("April", None);
     ("May", None); ("June", None); ("July", None); ("August", Some 1);
     ("September", None); ("October", Some 1); ("November", None);
     ("December", Some 1)].
Proof. vm_compute. reflexivity. Qed.

(** ** The leading countries *)

Lemma isin_spec (v : option string) (values : list string) :
  isin v values = true ↔ v ∈ Some <$> values.
Proof.
  destruct v as [s|]; simpl.
  - rewrite bool_decide_eq_true. symmetry. apply elem_of_Some_fmap.
  - split; [discriminate|].
    intros (x & Hx & _)%list_elem_of_fmap. discriminate Hx.
Qed.

(** The counts of some entries of [value_counts] are the sizes of the
    groups of their labels. *)
Lemma value_counts_sizes (key : row → option string) (df : list row)
    (l : list (string * nat)) :
  (∀ p, p ∈ l → p ∈ value_counts (key <$> df)) →
  snd <$> l
  = (λ k, length (filter (λ r, key r = Some k) df)) <$> (fst <$> l).
Proof.
  induction l as [|[k n] l IH]; intros Hl; [reflexivity|].
  rewrite !fmap_cons. simpl. f_equal.
  - specialize (Hl (k, n) (list_elem_of_here _ _)).
    apply value_counts_entries in Hl as [_ ->].
    apply length_filter_fmap_eq.
  - apply IH. intros p Hp. apply Hl. right. exact Hp.
Qed.

Lemma head_value_counts_total (key : row → option string) (df : list row)
    (n : nat) :
  counts_total (head_n n (value_counts (key <$> df)))
  = length (filter (λ r, isin (key r)
                           (fst <$> head_n n (value_counts (key <$> df)))
                         = true) df).
Proof.
  unfold counts_total, head_n.
  set (top := take n (value_counts (key <$> df))).
  assert (Hsub : ∀ p, p ∈ top → p ∈ value_counts (key <$> df)).
  { intros p Hp. exact (subseteq_take _ _ p Hp). }
  assert (Hnd : NoDup (fst <$> top)).
  { unfold top. rewrite fmap_take.
    eapply sublist_NoDup; [apply value_counts_keys | apply sublist_take]. }
  rewrite (value_counts_sizes key df top Hsub).
  rewrite (list_filter_iff _ (λ r, key r ∈ Some <$> (fst <$> top)))
    by (intros r; apply isin_spec).
  rewrite (length_filter_indicator (λ r, key r ∈ Some <$> (fst <$> top))).
  rewrite <- (weight_groups key (λ _, 1) (fst <$> top) df Hnd).
  apply (f_equal sum_list), list_fmap_ext. intros _ k _.
  apply length_filter_indicator.
Qed.

(** X14. The rows kept for the chart of the five leading countries are
    the rows of the five first entries of the country counts: there are
    as many of them as these five counts add up to, and each has one of
    the five countries. *)
Theorem top5_rows (df : DataFrame) :
  length (top_5_countries df) ≤ 5
  ∧ NoDup (top_5_countries df)
  ∧ length (df_top5 df)
    = counts_total (head_n 5 (value_counts ((country_full ∘ base) <$> df)))
  ∧ (∀ r, r ∈ df_top5 df ↔
          r ∈ df ∧ country_full (base r) ∈ Some <$> top_5_countries df).
Proof.
  unfold df_top5, top_5_countries.
  split; [rewrite length_fmap; unfold head_n; rewrite length_take; lia|].
  split.
  { unfold head_n. rewrite fmap_take.
    eapply sublist_NoDup; [apply value_counts_keys | apply sublist_take]. }
  split; [symmetry; apply (head_value_counts_total (country_full ∘ base))|].
  intros r. rewrite list_elem_of_filter, isin_spec. tauto.
Qed.

(** ** The statistics tables *)

Lemma missions_per_year_entries (df : list row) (y : Z) (n : nat) :
  (y, n) ∈ missions_per_year df →
  Some y ∈ year <$> df ∧ n = length (filter (λ r, year r = Some y) df).
Proof.
  unfold missions_per_year.
  intros (k & [= -> ->] & Hk)%list_elem_of_fmap. split; [|reflexivity].
  apply (sorted_keys (omap year df)) in Hk.
  apply list_elem_of_omap in Hk as (r & Hr & Hy).
  apply list_elem_of_fmap. exists r. split; [symmetry; exact Hy | exact Hr].
Qed.

Lemma success_mean_pct_Some (part : list row) :
  1 ≤ length part →
  success_mean_pct part
  = Some ((Q_of_nat (successful_missions part) / Q_of_nat (length part))
          * 100)%Q.
Proof. destruct part; [simpl; lia | reflexivity]. Qed.

Lemma stats_table_lines {K} `{EqDecision K} (key : row → option K)
    (counts : list (K * nat)) (df : list row) (line : stat_line K) :
  (∀ k n, (k, n) ∈ counts →
          Some k ∈ key <$> df
          ∧ n = length (filter (λ r, key r = Some k) df)) →
  line ∈ stats_table key counts df →
  line_of_group key df line.
Proof.
  intros Hcounts ([k n] & -> & Hin)%list_elem_of_fmap.
  destruct (Hcounts k n Hin) as [Hk ->]. unfold line_of_group. simpl.
  assert (Hpos : 1 ≤ length (filter (λ r, key r = Some k) df)).
  { apply list_elem_of_fmap in Hk as (r & Hk & Hr).
    exact (filter_nonempty _ df r Hr (eq_sym Hk)). }
  split; [reflexivity|]. split; [exact Hpos|].
  eexists. split; [apply success_mean_pct_Some, Hpos|].
  split; [apply pct_bounds; [apply successful_missions_le | exact Hpos]|].
  apply pct_times_count, Hpos.
Qed.

Lemma head_value_counts_entries (key : row → option string) (df : list row)
    (m : nat) (k : string) (n : nat) :
  (k, n) ∈ take m (value_counts (key <$> df)) →
  Some k ∈ key <$> df ∧ n = length (filter (λ r, key r = Some k) df).
Proof.
  intros Hin. apply (subseteq_take m _ (k, n)) in Hin.
  apply value_counts_entries in Hin as [Hk ->].
  split; [exact Hk | apply length_filter_fmap_eq].
Qed.

(** X15. Every line of the four statistics tables (countries,
    organisations, years, rockets) describes the rows of its label: the
    total is their number, which is at least one, so the success rate is
    never NaN; it is their share of successes, between 0 and 100. *)
Theorem statistics_lines (df : DataFrame) :
  (∀ line, line ∈ country_stats df →
           line_of_group (country_full ∘ base) df line)
  ∧ (∀ line, line ∈ org_stats df → line_of_group (agency ∘ base) df line)
  ∧ (∀ line, line ∈ yearly_stats df → line_of_group year df line)
  ∧ (∀ line, line ∈ rocket_stats df → line_of_group (rocket ∘ base) df line).
Proof.
  unfold country_stats, org_stats, yearly_stats, rocket_stats,
    country_missions, org_missions, top_rockets, head_n.
  split; [|split; [|split]]; intros line;
    apply stats_table_lines; intros k n Hin.
  - exact (head_value_counts_entries _ df _ k n Hin).
  - exact (head_value_counts_entries _ df _ k n Hin).
  - exact (missions_per_year_entries df k n Hin).
  - apply (subseteq_take 20 _ (k, n)) in Hin.
    exact (head_value_counts_entries _ df _ k n Hin).
Qed.

(** X16. The rocket table is built from the 15 most used rockets, so
    the slice to 20 entries keeps them all: the table has one line per
    entry of [top_rockets] and never more than 15 lines. *)
Theorem rocket_stats_slice (df : DataFrame) :
  rocket_stats df = stats_table (rocket ∘ base) (top_rockets df) df
  ∧ s_label <$> rocket_stats df = fst <$> top_rockets df
  ∧ s_total <$> rocket_stats df = snd <$> top_rockets df
  ∧ length (rocket_stats df) ≤ 15.
Proof.
  assert (Hlen : length (top_rockets df) ≤ 15)
    by (unfold top_rockets, head_n; rewrite length_take; lia).
  assert (Hslice : rocket_stats df
                   = stats_table (rocket ∘ base) (top_rockets df) df)
    by (unfold rocket_stats; rewrite take_ge by lia; reflexivity).
  rewrite Hslice. unfold stats_table.
  split; [reflexivity|]. rewrite <- !list_fmap_compose, length_fmap.
  split; [reflexivity|]. split; [reflexivity | exact Hlen].
Qed.

(** X17. The success rates of the yearly trends table are, year by
    year, the yearly rates that are plotted and smoothed: both tables
    have the same years and the same counts. *)
Theorem yearly_stats_rates (df : DataFrame) :
  s_label <$> yearly_stats df = g_key <$> success_by_year df
  ∧ s_total <$> yearly_stats df = g_count <$> success_by_year df
  ∧ s_rate <$> yearly_stats df = yearly_rate df.
Proof.
  unfold yearly_stats, stats_table, yearly_rate, success_by_year,
    groupby_success, missions_per_year. cbv zeta.
  rewrite <- !list_fmap_compose.
  split; [reflexivity|]. split; [reflexivity|].
  apply list_fmap_ext. intros i k Hk. simpl.
  rewrite success_mean_pct_Some; [reflexivity|].
  apply list_elem_of_lookup_2 in Hk.
  apply (sorted_keys (omap year df)) in Hk.
  apply list_elem_of_omap in Hk as (r & Hr & Hy).
  exact (filter_nonempty _ df r Hr Hy).
Qed.

Lemma statistics_lines_witness :
  s_label Cases.leading_country = "United States"
  ∧ line_of_group (country_full ∘ base)
      (process Sample.to_datetime Sample.launches) Cases.leading_country.
Proof.
  split; [reflexivity|].
  pose proof (statistics_lines (process Sample.to_datetime Sample.launches))
    as [Hcountry _].
  apply Hcountry. vm_compute. apply list_elem_of_here.
Defined.

Lemma seasonal_counts_witness :
  let df := process Sample.to_datetime Sample.launches in
  ("October", Some 1) ∈ month_counts df
  ∧ length (filter (λ r, month_name r = Some "October") df) = 1
  ∧ ("May", None) ∈ month_counts df
  ∧ length (filter (λ r, month_name r = Some "May") df) = 0.
Proof.
  intros df.
  pose proof (seasonal_counts df) as (_ & _ & Hmonth & _).
  assert (Hoct : ("October", Some 1) ∈ month_counts df)
    by (vm_compute; do 9 apply list_elem_of_further; apply list_elem_of_here).
  assert (Hmay : ("May", @None nat) ∈ month_counts df)
    by (vm_compute; do 4 apply list_elem_of_further; apply list_elem_of_here).
  split; [exact Hoct|]. split; [|split; [exact Hmay|]].
  - destruct (Hmonth _ _ Hoct) as [[_ H]|[_ H]]; [discriminate H|].
    exact (eq_sym (f_equal (default 0) H)).
  - destruct (Hmonth _ _ Hmay) as [[H _]|[_ H]]; [exact H | discriminate H].
Defined.

(** ** Failed missions *)

Lemma length_filter_split {A} (P : A → Prop) `{∀ x, Decision (P x)}
    (l : list A) :
  length (filter P l) + length (filter (λ x, ¬ P x) l) = length l.
Proof.
  induction l as [|x l IH]; [reflexivity|].
  filter_step.
  destruct (decide (P x)); destruct (decide (¬ P x)); cbn [length];
    try lia; tauto.
Qed.

(** X18. In a cleaned table the number printed as failed missions is
    the number of rows whose status is neither "Success" nor "Partial
    Failure": partial failures are counted with the successes, not with
    the failures, and the two numbers add up to the number of rows. *)
Theorem failed_missions_counts
    (to_datetime : list (option string) → list (option Timestamp))
    (raw : list csv_row) :
  let df := process to_datetime raw in
  failed_missions df
  = length (filter (λ r, status (base r) ≠ Some "Success"
                         ∧ status (base r) ≠ Some "Partial Failure") df)
  ∧ successful_missions df
    = length (filter (λ r, status (base r) = Some "Success"
                           ∨ status (base r) = Some "Partial Failure") df)
  ∧ successful_missions df + failed_missions df = total_missions df.
Proof.
  intros df.
  assert (Hflag : ∀ r, r ∈ df →
            (success r = true
             ↔ status (base r) = Some "Success"
               ∨ status (base r) = Some "Partial Failure")).
  { intros r Hr. apply elem_of_process in Hr as (c & d & _ & ->). simpl.
    unfold isin, success_keywords.
    destruct (Mission_Status c) as [s|]; simpl.
    - rewrite bool_decide_eq_true, !elem_of_cons, elem_of_nil.
      split; [intros [->|[->|[]]]; auto|].
      intros [[= ->]|[= ->]]; auto.
    - split; [discriminate | intros [|]; discriminate]. }
  assert (Hext : ∀ (P Q : row → Prop) `{∀ x, Decision (P x)}
                   `{∀ x, Decision (Q x)} (l : list row),
            (∀ r, r ∈ l → (P r ↔ Q r)) → filter P l = filter Q l).
  { intros P Q ? ? l. induction l as [|r l IH]; intros Hl; [reflexivity|].
    filter_step. rewrite IH by (intros x Hx; apply Hl; right; exact Hx).
    specialize (Hl r (list_elem_of_here _ _)).
    destruct (decide (P r)); destruct (decide (Q r)); tauto || reflexivity. }
  unfold failed_missions, total_missions, successful_missions.
  pose proof (length_filter_split (λ r : row, success r = true) df) as Hsplit.
  assert (Hfail : filter (λ r, ¬ success r = true) df
                  = filter (λ r, status (base r) ≠ Some "Success"
                                 ∧ status (base r) ≠ Some "Partial Failure")
                           df).
  { apply Hext. intros r Hr. rewrite (Hflag r Hr). tauto. }
  assert (Hok : filter (λ r, success r = true) df
                = filter (λ r, status (base r) = Some "Success"
                               ∨ status (base r) = Some "Partial Failure") df)
    by (apply Hext; exact Hflag).
  rewrite <- Hfail, <- Hok. unfold DataFrame in *. lia.
Qed.

(** ** The export, whatever happens *)

(** Splits on the outcome of one step of the export. *)
Ltac export_step w a :=
  try (destruct (write_failure w a) as [?|] eqn:?; simpl).

Lemma export_shape (w : world) :
  (export w).2 = Done tt
  ∧ files_written (export w).1 `prefix_of` export_plan
  ∧ (last (export w).1 = Some (Print AllSaved)
     ∧ csv_exports `prefix_of` files_written (export w).1
     ∨ ∃ e, last (export w).1 = Some (Print (ExportError e))
            ∧ files_written (export w).1 ≠ export_plan)
  ∧ (exports_exists w = true → MakeDirs ∉ (export w).1)
  ∧ (MakeDirs ∈ (export w).1 → head (export w).1 = Some MakeDirs).
Proof.
  unfold export, makedirs, write.
  destruct (exports_exists w) eqn:?;
    [|destruct (makedirs_failure w) as [?|] eqn:?]; simpl;
    export_step w ProcessedCsv; export_step w CountryCsv;
    export_step w OrgCsv; export_step w YearlyCsv;
    export_step w RocketCsv; export_step w SummaryTxt;
    export_step w DecadeCsv;
    try (destruct (write_failure w ExcelWorkbook) as [e|] eqn:?; simpl;
         [destruct (isinstance e ImportError) eqn:?; simpl|]);
    (split; [reflexivity|]);
    (split; [eexists; reflexivity|]);
    (split;
     [ first [ left; split; [reflexivity | eexists; reflexivity]
             | right; eexists; split; [reflexivity | discriminate] ]|]);
    (split; [first [discriminate | intros _; apply (bool_decide_unpack _);
                                   vm_compute; exact I]|]);
    first [ intros _; reflexivity
          | intros H; exfalso; revert H; apply (bool_decide_unpack _);
            vm_compute; exact I ].
Qed.

(** X19. No failure of the export leaves it: whatever the directory and
    the writes do, the export ends normally.  The files written are an
    initial part of the plan, in its order.  The last line printed is
    either the closing confirmation, and then the seven text files were
    all written, or the report of an exception, and then a file of the
    plan is missing.  The directory is created only when it is absent,
    and before anything else. *)
Theorem export_never_fails (w : world) :
  (export w).2 = Done tt
  ∧ files_written (export w).1 `prefix_of` export_plan
  ∧ (last (export w).1 = Some (Print AllSaved)
     ∧ csv_exports `prefix_of` files_written (export w).1
     ∨ ∃ e, last (export w).1 = Some (Print (ExportError e))
            ∧ files_written (export w).1 ≠ export_plan)
  ∧ (exports_exists w = true → MakeDirs ∉ (export w).1)
  ∧ (MakeDirs ∈ (export w).1 → head (export w).1 = Some MakeDirs).
Proof. exact (export_shape w). Qed.

Lemma export_never_fails_witness :
  (export Cases.read_only_disk).2 = Done tt
  ∧ files_written (export Cases.read_only_disk).1 = []
  ∧ MakeDirs ∉ (export Cases.read_only_disk).1.
Proof.
  pose proof (export_never_fails Cases.read_only_disk)
    as (Hdone & _ & _ & Hdir & _).
  split; [exact Hdone|]. split; [reflexivity|].
  apply Hdir. reflexivity.
Defined.

Lemma main_complete (w : world) (df : list csv_row) :
  csv_file w = inr df → analysis_failure w = None →
  main w = ([Print Banner; ReadCsv; Print (Loaded (length df));
             Print AnalysisOutput; Print ExportHeader]
              ++ (export w).1 ++ [Print Farewell], Done tt).
Proof.
  intros Hdf Hok.
  pose proof (export_shape w) as (Hdone & _).
  unfold main, load, analysis. rewrite Hdf, Hok.
  destruct (export w) as [t o]. simpl in Hdone. subst o. reflexivity.
Qed.

Lemma main_load_failure (w : world) (e : exn) :
  csv_file w = inl e →
  main w = ([Print Banner; ReadCsv; Print (load_report e)], Exit).
Proof.
  intros He. unfold main, load, load_report. rewrite He. simpl.
  destruct (isinstance e FileNotFoundError); reflexivity.
Qed.

Lemma main_analysis_failure (w : world) (df : list csv_row) (e : exn) :
  csv_file w = inr df → analysis_failure w = Some e →
  main w = ([Print Banner; ReadCsv; Print (Loaded (length df))], Raised e).
Proof.
  intros Hdf He. unfold main, load, analysis. rewrite Hdf, He. reflexivity.
Qed.

(** X20. The script reaches its farewell line exactly when the input
    was read and the analysis raised nothing: then it ends normally
    whatever the export met, and its trace is the five lines before the
    export, the export, and the farewell.  In every run the files
    written are an initial part of the export plan. *)
Theorem main_reaches_farewell (w : world) :
  (Print Farewell ∈ (main w).1
   ↔ (∃ df, csv_file w = inr df) ∧ analysis_failure w = None)
  ∧ (∀ df, csv_file w = inr df → analysis_failure w = None →
           (main w).2 = Done tt
           ∧ (main w).1
             = [Print Banner; ReadCsv; Print (Loaded (length df));
                Print AnalysisOutput; Print ExportHeader]
                 ++ (export w).1 ++ [Print Farewell]
           ∧ files_written (main w).1 = files_written (export w).1)
  ∧ files_written (main w).1 `prefix_of` export_plan.
Proof.
  assert (Hfiles : ∀ df, csv_file w = inr df → analysis_failure w = None →
                         files_written (main w).1 = files_written (export w).1).
  { intros df Hdf Hok. rewrite (main_complete w df Hdf Hok).
    unfold files_written. simpl. rewrite omap_app. simpl.
    apply app_nil_r. }
  split; [|split].
  - split.
    + intros Hin.
      destruct (csv_file w) as [e|df] eqn:Hdf.
      * rewrite (main_load_failure w e Hdf) in Hin. exfalso. revert Hin.
        unfold load_report. simpl. rewrite !elem_of_cons, elem_of_nil.
        destruct (isinstance e FileNotFoundError);
          intros [?|[?|[?|?]]]; try discriminate; assumption.
      * split; [exists df; reflexivity|].
        destruct (analysis_failure w) as [e|] eqn:He; [|reflexivity].
        rewrite (main_analysis_failure w df e Hdf He) in Hin.
        exfalso. revert Hin. simpl.
        rewrite !elem_of_cons, elem_of_nil. intros [?|[?|[?|?]]]; try discriminate.
        assumption.
    + intros [[df Hdf] Hok]. rewrite (main_complete w df Hdf Hok). simpl.
      rewrite !elem_of_cons, !elem_of_app, elem_of_cons.
      do 5 right. right. left. reflexivity.
  - intros df Hdf Hok. split; [|split].
    + rewrite (main_complete w df Hdf Hok). reflexivity.
    + rewrite (main_complete w df Hdf Hok). reflexivity.
    + exact (Hfiles df Hdf Hok).
  - destruct (csv_file w) as [e|df] eqn:Hdf.
    + rewrite (main_load_failure w e Hdf). apply prefix_nil.
    + destruct (analysis_failure w) as [e|] eqn:He.
      * rewrite (main_analysis_failure w df e Hdf He). apply prefix_nil.
      * rewrite (Hfiles df eq_refl eq_refl). apply (export_shape w).
Qed.

Lemma main_reaches_farewell_witness :
  (main Cases.read_only_disk).2 = Done tt
  ∧ last (main Cases.read_only_disk).1 = Some (Print Farewell)
  ∧ files_written (main Cases.read_only_disk).1 = [].
Proof.
  pose proof (main_reaches_farewell Cases.read_only_disk) as (_ & Hrun & _).
  destruct (Hrun Sample.launches eq_refl eq_refl) as (Hdone & Htrace & Hfiles).
  split; [exact Hdone|]. split.
  - rewrite Htrace. reflexivity.
  - rewrite Hfiles. reflexivity.
Defined.
